(** * whisper-writer: transcription pipeline and activation controller

    A shallow embedding of [src/transcription.py] and of the result-thread
    handling of [src/main.py], with the properties of the specification
    stated and settled against it.

    Conventions of the embedding.
    - A Python [str] is a [string]; a character is a code point in
      U+0000..U+00FF (an [ascii]).  The character classes below are the
      ones CPython uses for these code points ([str.isspace], the [re]
      classes [\w] and [\s], [str.lower]).  Text with code points
      beyond U+00FF is outside the model: every statement about text
      below is a statement about text over U+0000..U+00FF.
    - Calls that leave the module (model construction, the local
      backend, the API client, the WAV encoding and the API request,
      [subprocess.Popen]) are answered by an [environment] of oracles
      and recorded in a trace of [effect]s.
    - [ConfigManager.console_print] only logs and is not modelled. *)

From Stdlib Require Import String Ascii List Bool Arith ZArith NArith Lia.
From Stdlib Require Import QArith.
From Stdlib Require Import Floats.SpecFloat.
Import ListNotations.

Close Scope Q_scope.
Open Scope list_scope.
Open Scope string_scope.

(* ================================================================= *)
(** ** Characters *)

Module Char.

Definition code (c : ascii) : N := N_of_ascii c.

Definition between (lo hi : N) (c : ascii) : bool :=
  (lo <=? code c)%N && (code c <=? hi)%N.

(** [str.isspace] / [\s] / the separators of [str.split()] and [str.strip()]:
    TAB..CR, FS..US, SPACE, NEL (U+0085), NBSP (U+00A0). *)
Definition is_space (c : ascii) : bool :=
  between 9 13 c || between 28 32 c || (code c =? 133)%N || (code c =? 160)%N.

(** Upper-case letters: A..Z and the Latin-1 capitals (U+00D7 is the
    multiplication sign). *)
Definition is_upper (c : ascii) : bool :=
  between 65 90 c || between 192 214 c || between 216 222 c.

(** [str.lower] on one code point. *)
Definition lower (c : ascii) : ascii :=
  if is_upper c then ascii_of_N (code c + 32) else c.

(** The [re] class [\w] on [str] patterns: alphanumerics and underscore. *)
Definition is_word (c : ascii) : bool :=
  between 48 57 c || between 65 90 c || (code c =? 95)%N || between 97 122 c
  || (code c =? 170)%N || between 178 179 c || (code c =? 181)%N
  || between 185 186 c || between 188 190 c
  || between 192 214 c || between 216 246 c || between 248 255 c.

(** [string.punctuation]. *)
Definition punctuation : string :=
  "!" ++ String (ascii_of_nat 34) "#$%&'()*+,-./:;<=>?@[\]^_`{|}~".

Fixpoint mem (c : ascii) (s : string) : bool :=
  match s with
  | EmptyString => false
  | String d s' => Ascii.eqb c d || mem c s'
  end.

Definition is_punctuation (c : ascii) : bool := mem c punctuation.

End Char.

(* ================================================================= *)
(** ** String operations of the Python runtime used by the module *)

Module Str.

Fixpoint map (f : ascii -> ascii) (s : string) : string :=
  match s with
  | EmptyString => EmptyString
  | String c s' => String (f c) (map f s')
  end.

Fixpoint forallb (p : ascii -> bool) (s : string) : bool :=
  match s with
  | EmptyString => true
  | String c s' => p c && forallb p s'
  end.

(** [s.lower()] on text over U+0000..U+00FF, where it works character
    by character.  (Beyond U+00FF Python lowers capital sigma by
    context and leaves some upper-case code points as they are; such
    text is not covered.) *)
Definition lower (s : string) : string := map Char.lower s.

(** [s.lstrip()] *)
Fixpoint lstrip (s : string) : string :=
  match s with
  | EmptyString => EmptyString
  | String c s' => if Char.is_space c then lstrip s' else s
  end.

(** [s.rstrip()] *)
Fixpoint rstrip (s : string) : string :=
  match s with
  | EmptyString => EmptyString
  | String c s' =>
      match rstrip s' with
      | EmptyString => if Char.is_space c then EmptyString else String c EmptyString
      | r => String c r
      end
  end.

(** [s.strip()] *)
Definition strip (s : string) : string := rstrip (lstrip s).

(** [s.split()]: the maximal runs of non-whitespace characters. *)
Fixpoint split (s : string) : list string :=
  match s with
  | EmptyString => []
  | String c s' =>
      if Char.is_space c then split s'
      else match s' with
           | EmptyString => [String c EmptyString]
           | String d _ =>
               if Char.is_space d then String c EmptyString :: split s'
               else match split s' with
                    | w :: ws => String c w :: ws
                    | [] => [String c EmptyString]
                    end
           end
  end.

(** [sep.join(ws)] *)
Definition join (sep : string) (ws : list string) : string := String.concat sep ws.

(** [p in s] *)
Fixpoint contains (p s : string) : bool :=
  String.prefix p s
  || match s with
     | EmptyString => false
     | String _ s' => contains p s'
     end.

(** [s.endswith(".")] and [s[:-1]] *)
Fixpoint endswith_period (s : string) : bool :=
  match s with
  | EmptyString => false
  | String c EmptyString => Ascii.eqb c "."
  | String _ s' => endswith_period s'
  end.

Fixpoint drop_last (s : string) : string :=
  match s with
  | EmptyString => EmptyString
  | String _ EmptyString => EmptyString
  | String c s' => String c (drop_last s')
  end.

End Str.

(* ================================================================= *)
(** ** [sanitize_text] *)

(** [re.sub(r'[^\w\s]', ' ', s)]: every character that is neither a word
    character nor whitespace is replaced by one space. *)
Definition sub_nonword_nonspace (s : string) : string :=
  Str.map (fun c => if Char.is_word c || Char.is_space c then c else " "%char) s.

Definition sanitize_text (text : string) : string :=
  let sanitized := sub_nonword_nonspace (Str.lower text) in
  let sanitized := Str.join " " (Str.split sanitized) in
  sanitized.

(* ================================================================= *)
(** ** The pattern of [handle_open_edge] *)

Module Re.

(** The pieces [re.compile(r'wiz\s+open\s+edge', re.IGNORECASE)] is made
    of: a letter matched without regard to case, and [\s+]. *)
Inductive atom :=
| Lit (a : ascii)
| Spaces.

(** Length and rest of the longest whitespace prefix. *)
Fixpoint span_spaces (s : string) : nat * string :=
  match s with
  | String c s' =>
      if Char.is_space c
      then let (n, rest) := span_spaces s' in (S n, rest)
      else (0, s)
  | EmptyString => (0, s)
  end.

(** Length of the match of [pat] at the start of [s].  [\s+] takes the
    whole whitespace run: each [\s+] of the pattern is followed by a
    letter, so no shorter run can lead to a match. *)
Fixpoint match_here (pat : list atom) (s : string) : option nat :=
  match pat with
  | [] => Some 0
  | Lit a :: pat' =>
      match s with
      | String c s' =>
          if Ascii.eqb (Char.lower c) a
          then option_map S (match_here pat' s')
          else None
      | EmptyString => None
      end
  | Spaces :: pat' =>
      match span_spaces s with
      | (0, _) => None
      | (n, rest) => option_map (Nat.add n) (match_here pat' rest)
      end
  end.

(** [pattern.sub('', s)] for a pattern without empty matches: the
    leftmost non-overlapping matches are deleted.  [skip] counts the
    characters of the current match still to be dropped. *)
Fixpoint sub_empty_from (pat : list atom) (skip : nat) (s : string) : string :=
  match s with
  | EmptyString => EmptyString
  | String c s' =>
      match skip with
      | S k => sub_empty_from pat k s'
      | O =>
          match match_here pat s with
          | Some (S n) => sub_empty_from pat n s'
          | _ => String c (sub_empty_from pat 0 s')
          end
      end
  end.

Definition sub_empty (pat : list atom) (s : string) : string :=
  sub_empty_from pat 0 s.

Definition wiz_open_edge : list atom :=
  [Lit "w"; Lit "i"; Lit "z"; Spaces; Lit "o"; Lit "p"; Lit "e"; Lit "n"; Spaces;
   Lit "e"; Lit "d"; Lit "g"; Lit "e"].

End Re.

(* ================================================================= *)
(** ** Samples handed to the local backend *)

Module F32.

(** IEEE 754 binary32: 24 bits of precision, exponents below 128. *)
Definition prec : Z := 24.
Definition emax : Z := 128.

Definition float32 : Type := spec_float.

(** [audio_data.astype(np.float32)] on one int16 sample: the integer
    rounded to binary32 (to nearest, ties to even). *)
Definition of_int16 (sample : Z) : float32 :=
  binary_normalize prec emax sample 0 false.

(** The constant [32768.0], as binary32. *)
Definition c32768 : float32 := binary_normalize prec emax 32768 0 false.

Definition div (x y : float32) : float32 := SFdiv prec emax x y.

(** The rational a finite float stands for. *)
Definition to_Q (x : float32) : option Q :=
  match x with
  | S754_zero _ => Some (Qmake 0 1)
  | S754_finite s m e =>
      let v := if s then Z.neg m else Z.pos m in
      Some (if (0 <=? e)%Z then inject_Z (v * 2 ^ e) else Qmake v (Z.to_pos (2 ^ (- e))))
  | S754_infinity _ | S754_nan => None
  end.

End F32.

(** [audio_data.astype(np.float32) / 32768.0] on one sample. *)
Definition scale_sample (sample : Z) : F32.float32 :=
  F32.div (F32.of_int16 sample) F32.c32768.

Definition is_int16 (sample : Z) : bool :=
  (-32768 <=? sample)%Z && (sample <=? 32767)%Z.

(* ================================================================= *)
(** ** Configuration read through [ConfigManager] *)

Record local_options := {
  compute_type : string;
  model_path : option string;
  device : string;
  model : string;
  condition_on_previous_text : bool;
  vad_filter : bool }.

Record api_options := {
  base_url : option string;
  api_model : string }.

Record common_options := {
  language : option string;
  initial_prompt : option string;
  temperature : Q }.

Record model_options := {
  use_api : bool;
  local : local_options;
  api : api_options;
  common : common_options }.

Record post_processing := {
  remove_trailing_period : bool;
  add_trailing_space : bool;
  remove_capitalization : bool }.

Record config := {
  cfg_model_options : model_options;
  cfg_post_processing : post_processing;
  cfg_sample_rate : option Z }.

(** Python's truthiness of an optional string, and [x or default]. *)
Definition truthy (s : option string) : bool :=
  match s with
  | Some (String _ _) => true
  | _ => false
  end.

Definition or_else (s : option string) (default : string) : string :=
  match s with
  | Some (String c r) => String c r
  | _ => default
  end.

(* ================================================================= *)
(** ** Effects: exceptions, external calls and their trace *)

Inductive exn := Exception (msg : string).

Inductive outcome (A : Type) :=
| Returns (a : A)
| Raises (e : exn).
Arguments Returns {A} a.
Arguments Raises {A} e.

(** A constructed [WhisperModel]. *)
Record whisper_model := {
  wm_model : string;
  wm_device : string;
  wm_compute_type : string }.

Record local_request := {
  lr_model : whisper_model;
  lr_audio : list F32.float32;
  lr_language : option string;
  lr_initial_prompt : option string;
  lr_condition_on_previous_text : bool;
  lr_temperature : Q;
  lr_vad_filter : bool }.

Record api_request := {
  ar_base_url : string;
  ar_model : string;
  ar_wav_samples : list Z;
  ar_wav_rate : Z;
  ar_language : option string;
  ar_prompt : option string;
  ar_temperature : Q }.

(** What the module does to the outside, in the order it does it.
    [Invoked p] marks the call of the handler registered under [p] in
    [execute_commands]; the other events are calls of collaborators. *)
Inductive effect :=
| WhisperModel (m : whisper_model)
| LocalTranscribe (r : local_request)
| OpenAI (api_key : option string) (client_base_url : string)
| SfWrite (samples : list Z) (sample_rate : Z)
| ApiTranscribe (r : api_request)
| Popen (cmd : string)
| Invoked (command_phrase : string).

Definition trace := list effect.

(** The collaborators.  Each answer may depend on everything that
    happened before.  [None] means the call returned normally. *)
Record environment := {
  env_WhisperModel : trace -> whisper_model -> option exn;
  env_local_transcribe : trace -> local_request -> outcome (list string);
  env_OPENAI_API_KEY : option string;
  env_OpenAI : trace -> option string -> string -> option exn;
  env_sf_write : trace -> list Z -> Z -> option exn;
  env_api_transcribe : trace -> api_request -> outcome string;
  env_Popen : trace -> string -> option exn }.

(** Computations that may raise, and that extend the trace. *)
Definition M (A : Type) : Type := trace -> outcome A * trace.

Definition ret {A} (a : A) : M A := fun tr => (Returns a, tr).

Definition bind {A B} (m : M A) (k : A -> M B) : M B :=
  fun tr =>
    match m tr with
    | (Returns a, tr') => k a tr'
    | (Raises e, tr') => (Raises e, tr')
    end.

(** [try: m  except Exception as e: h e] *)
Definition try_except {A} (m : M A) (h : exn -> M A) : M A :=
  fun tr =>
    match m tr with
    | (Returns a, tr') => (Returns a, tr')
    | (Raises e, tr') => h e tr'
    end.

Definition emit (e : effect) : M unit := fun tr => (Returns tt, tr ++ [e])%list.

(** A call of a collaborator: it is answered from what happened so
    far, and recorded. *)
Definition call {A} (e : effect) (answer : trace -> outcome A) : M A :=
  fun tr => (answer tr, tr ++ [e])%list.

Definition raised (a : option exn) : outcome unit :=
  match a with
  | None => Returns tt
  | Some e => Raises e
  end.

Declare Scope monad_scope.
Delimit Scope monad_scope with M.
Notation "x <- m ;; k" := (bind m (fun x => k))
  (at level 61, m at next level, right associativity) : monad_scope.
Notation "m ;; k" := (bind m (fun _ => k))
  (at level 61, right associativity) : monad_scope.
Open Scope monad_scope.

(** A command handler: from the raw transcription to
    [(executed, modified_text)]. *)
Definition handler : Type := string -> M (bool * string).

(** [COMMAND_HANDLERS]: a [dict], iterated in insertion order. *)
Definition registry : Type := list (string * handler).

(** [COMMAND_HANDLERS[command_phrase] = func]: a phrase that is already
    a key keeps its place and gets the new handler, a new phrase goes
    to the end. *)
Fixpoint register_command (command_phrase : string) (func : handler)
  (handlers : registry) : registry :=
  match handlers with
  | [] => [(command_phrase, func)]
  | (p, h) :: rest =>
      if String.eqb p command_phrase then (p, func) :: rest
      else (p, h) :: register_command command_phrase func rest
  end.

(* ================================================================= *)
(** ** [transcription.py] *)

Section Transcription.

Variable env : environment.
Variable cfg : config.

(** [WhisperModel(model, device=..., compute_type=...)]; the
    [download_root] argument is [None] at every call site. *)
Definition new_WhisperModel (m : whisper_model) : M whisper_model :=
  call (WhisperModel m) (fun tr => raised (env_WhisperModel env tr m)) ;;
  ret m.

Definition create_local_model : M whisper_model :=
  let local_model_options := local (cfg_model_options cfg) in
  let compute_type := compute_type local_model_options in
  let model_path := model_path local_model_options in
  let device :=
    if String.eqb compute_type "int8" then "cpu"
    else device local_model_options in
  try_except
    (if truthy model_path
     then new_WhisperModel {| wm_model := or_else model_path EmptyString;
                              wm_device := device;
                              wm_compute_type := compute_type |}
     else new_WhisperModel {| wm_model := model local_model_options;
                              wm_device := device;
                              wm_compute_type := compute_type |})
    (fun _ =>
       new_WhisperModel {| wm_model := or_else model_path (model local_model_options);
                           wm_device := "cpu";
                           wm_compute_type := compute_type |}).

(** [local_model.transcribe(audio=..., ...)], answered with the texts
    of the segments. *)
Definition local_model_transcribe (r : local_request) : M (list string) :=
  call (LocalTranscribe r) (fun tr => env_local_transcribe env tr r).

Definition transcribe_local (audio_data : list Z) (local_model : option whisper_model)
  : M string :=
  local_model <- match local_model with
                 | Some m => ret m
                 | None => create_local_model
                 end ;;
  let model_options := cfg_model_options cfg in
  let audio_data_float := List.map scale_sample audio_data in
  segments <- local_model_transcribe
                {| lr_model := local_model;
                   lr_audio := audio_data_float;
                   lr_language := language (common model_options);
                   lr_initial_prompt := initial_prompt (common model_options);
                   lr_condition_on_previous_text :=
                     condition_on_previous_text (local model_options);
                   lr_temperature := temperature (common model_options);
                   lr_vad_filter := vad_filter (local model_options) |} ;;
  ret (String.concat EmptyString segments).

(** [OpenAI(api_key=..., base_url=...)]: the constructor raises when it
    finds no key. *)
Definition new_OpenAI (api_key : option string) (client_base_url : string) : M unit :=
  call (OpenAI api_key client_base_url)
       (fun tr => raised (env_OpenAI env tr api_key client_base_url)).

(** [sf.write(byte_io, audio_data, sample_rate, format='wav')]: raises
    on a sample rate the format cannot hold. *)
Definition sf_write (samples : list Z) (sample_rate : Z) : M unit :=
  call (SfWrite samples sample_rate)
       (fun tr => raised (env_sf_write env tr samples sample_rate)).

(** [client.audio.transcriptions.create(...)] on the WAV encoding of the
    samples, answered with [response.text]. *)
Definition api_transcriptions_create (r : api_request) : M string :=
  call (ApiTranscribe r) (fun tr => env_api_transcribe env tr r).

Definition transcribe_api (audio_data : list Z) : M string :=
  let model_options := cfg_model_options cfg in
  new_OpenAI
    (if truthy (env_OPENAI_API_KEY env) then env_OPENAI_API_KEY env else None)
    (or_else (base_url (api model_options)) "https://api.openai.com/v1") ;;
  let sample_rate :=
    match cfg_sample_rate cfg with
    | Some r => if (r =? 0)%Z then 16000%Z else r
    | None => 16000%Z
    end in
  sf_write audio_data sample_rate ;;
  api_transcriptions_create
    {| ar_base_url := or_else (base_url (api model_options)) "https://api.openai.com/v1";
       ar_model := api_model (api model_options);
       ar_wav_samples := audio_data;
       ar_wav_rate := sample_rate;
       ar_language := language (common model_options);
       ar_prompt := initial_prompt (common model_options);
       ar_temperature := temperature (common model_options) |}.

(** [subprocess.Popen(cmd, shell=True)] *)
Definition subprocess_Popen (cmd : string) : M unit :=
  call (Popen cmd) (fun tr => raised (env_Popen env tr cmd)).

Definition handle_open_edge : handler :=
  fun transcription =>
    try_except
      (subprocess_Popen "start /WAIT microsoft-edge:" ;;
       let modified_text := Re.sub_empty Re.wiz_open_edge transcription in
       ret (true, Str.strip modified_text))
      (fun _ => ret (false, transcription)).

(** The registry as the module leaves it after import. *)
Definition COMMAND_HANDLERS : registry :=
  register_command "wiz open edge" handle_open_edge [].

(** The loop of [execute_commands] over [handlers.items()]. *)
Fixpoint scan_commands (items : registry) (sanitized transcription : string)
  : M (bool * string) :=
  match items with
  | [] => ret (false, transcription)
  | (command_phrase, handler_func) :: rest =>
      if Str.contains command_phrase sanitized
      then emit (Invoked command_phrase) ;; handler_func transcription
      else scan_commands rest sanitized transcription
  end.

Definition execute_commands (handlers : registry) (transcription : string)
  : M (bool * string) :=
  let sanitized := sanitize_text transcription in
  scan_commands handlers sanitized transcription.

Definition post_process_transcription (handlers : registry) (transcription : string)
  : M string :=
  let transcription := Str.strip transcription in
  r <- execute_commands handlers transcription ;;
  let transcription := snd r in
  let post_processing := cfg_post_processing cfg in
  let transcription :=
    if remove_trailing_period post_processing && Str.endswith_period transcription
    then Str.drop_last transcription else transcription in
  let transcription :=
    if add_trailing_space post_processing
    then transcription ++ " " else transcription in
  let transcription :=
    if remove_capitalization post_processing
    then Str.lower transcription else transcription in
  ret transcription.

(** [audio_data] is [None] or an array of int16 samples. *)
Definition transcribe (handlers : registry) (audio_data : option (list Z))
  (local_model : option whisper_model) : M string :=
  match audio_data with
  | None => ret EmptyString
  | Some audio_data =>
      transcription <-
        (if use_api (cfg_model_options cfg)
         then transcribe_api audio_data
         else transcribe_local audio_data local_model) ;;
      post_process_transcription handlers transcription
  end.

End Transcription.

(* ================================================================= *)
(** ** Auxiliary notions for the properties of [sanitize_text] *)

(** One character through [lower()] and then the [re.sub] of
    [sanitize_text]. *)
Definition clean_char (c : ascii) : ascii :=
  let d := Char.lower c in
  if Char.is_word d || Char.is_space d then d else " "%char.

(** A character produced by [clean_char] is whitespace, or it is a
    lower-case word character that [clean_char] leaves alone. *)
Definition settled (c : ascii) : bool :=
  Ascii.eqb (clean_char c) c && Char.is_word c && negb (Char.is_upper c).

Definition starts_word (s : string) : bool :=
  match s with
  | String d _ => negb (Char.is_space d)
  | EmptyString => false
  end.

(** A word of [split]: not empty, and every character satisfies [p]. *)
Definition word_of (p : ascii -> bool) (w : string) : Prop :=
  w <> EmptyString /\ Str.forallb p w = true.

(** The words that [sanitize_text] joins: non-empty, made of settled
    characters, none of them whitespace. *)
Definition sanitized_words (text : string) : list string :=
  Str.split (Str.map clean_char text).

(* ================================================================= *)
(** ** [main.py]: the result thread of [WhisperWriterApp] *)

Module App.

(** A [ResultThread] object as the application sees it: whether
    [isRunning()] holds, and the requests made of it. *)
Record result_thread_obj := {
  running : bool;
  stop_recording_calls : nat;
  stop_calls : nat }.

(** The fields of [WhisperWriterApp] that the handlers below touch.
    [threads] holds every [ResultThread] created so far, oldest first;
    [result_thread] is [self.result_thread], a reference into it. *)
Record app := {
  threads : list result_thread_obj;
  result_thread : option nat;
  typed : list string;
  key_listener_starts : nat }.

Record options := {
  recording_mode : string;
  noise_on_completion : bool }.

(** When the application starts: no result thread has been created.
    With a configuration file [__init__] initialises the components at
    once; without one they are initialised when the settings window is
    closed, before any other event can arrive. *)
Definition initial : app :=
  {| threads := []; result_thread := None; typed := []; key_listener_starts := 0 |}.

Fixpoint update (i : nat) (f : result_thread_obj -> result_thread_obj)
  (l : list result_thread_obj) {struct l} : list result_thread_obj :=
  match l, i with
  | [], _ => []
  | t :: l', O => f t :: l'
  | t :: l', S i' => t :: update i' f l'
  end.

(** [self.result_thread and self.result_thread.isRunning()] *)
Definition result_thread_isRunning (s : app) : bool :=
  match result_thread s with
  | Some i =>
      match nth_error (threads s) i with
      | Some t => running t
      | None => false
      end
  | None => false
  end.

Definition on_result_thread (f : result_thread_obj -> result_thread_obj) (s : app) : app :=
  match result_thread s with
  | Some i =>
      {| threads := update i f (threads s); result_thread := result_thread s;
         typed := typed s; key_listener_starts := key_listener_starts s |}
  | None => s
  end.

(** Modelled from the spec: [ResultThread.stop_recording()]
    ([result_thread.py] is not among the sources).  Section 4.2:
    capture ends and the session goes on to transcription, so the
    thread keeps running.  The request is counted on the thread
    object. *)
Definition stop_recording : app -> app :=
  on_result_thread (fun t =>
    {| running := running t;
       stop_recording_calls := S (stop_recording_calls t);
       stop_calls := stop_calls t |}).

(** Modelled from the spec: [ResultThread.stop()] (not among the
    sources either).  The specification has it both ways: by section
    4.2 a cancelled session goes directly to Stopped, by sections 4.1
    and 5 the worker runs on until it notices the request.  [waits]
    says which: whether the thread has finished when [stop()]
    returns.  The request is counted on the thread object. *)
Definition stop (waits : bool) : app -> app :=
  on_result_thread (fun t =>
    {| running := if waits then false else running t;
       stop_recording_calls := stop_recording_calls t;
       stop_calls := S (stop_calls t) |}).

(** [ResultThread(self.local_model)] followed by [start()]: a new
    thread object, running, that becomes [self.result_thread]. *)
Definition start_result_thread (s : app) : app :=
  if result_thread_isRunning s then s
  else
    {| threads :=
         (threads s ++ [{| running := true; stop_recording_calls := 0; stop_calls := 0 |}])%list;
       result_thread := Some (length (threads s));
       typed := typed s;
       key_listener_starts := key_listener_starts s |}.

Definition stop_result_thread (waits : bool) (s : app) : app :=
  if result_thread_isRunning s then stop waits s else s.

(** [initialize_components]: of the fields kept here it sets
    [self.result_thread = None].  The thread objects created earlier
    are not touched, and go on running if they were. *)
Definition initialize_components (s : app) : app :=
  {| threads := threads s; result_thread := None;
     typed := typed s; key_listener_starts := key_listener_starts s |}.

(** [start_listening]: [self.key_listener.start()]. *)
Definition start_listening (s : app) : app :=
  {| threads := threads s; result_thread := result_thread s;
     typed := typed s; key_listener_starts := S (key_listener_starts s) |}.

(** [on_settings_closed], the slot of the settings window's
    [settings_closed]: when there is no configuration file the
    components are initialised, again if they were already, and the
    listener is started.  [initialized] says whether
    [initialize_components] ran to its end: [create_local_model] may
    raise before [self.result_thread] is reset, and then none of the
    fields kept here has changed. *)
Definition on_settings_closed (config_file initialized : bool) (s : app) : app :=
  if config_file then s
  else if initialized then start_listening (initialize_components s)
  else s.

Section Handlers.

Variable opts : options.
Variable stop_waits : bool.

Definition on_activation (s : app) : app :=
  if result_thread_isRunning s then
    let recording_mode := recording_mode opts in
    if String.eqb recording_mode "press_to_toggle" then stop_recording s
    else if String.eqb recording_mode "continuous" then stop_result_thread stop_waits s
    else s
  else start_result_thread s.

Definition on_deactivation (s : app) : app :=
  if String.eqb (recording_mode opts) "hold_to_record" then
    if result_thread_isRunning s then stop_recording s else s
  else s.

Definition on_transcription_complete (result : string) (s : app) : app :=
  let s := {| threads := threads s; result_thread := result_thread s;
              typed := (typed s ++ [result])%list;
              key_listener_starts := key_listener_starts s |} in
  if String.eqb (recording_mode opts) "continuous" then start_result_thread s
  else {| threads := threads s; result_thread := result_thread s;
          typed := typed s; key_listener_starts := S (key_listener_starts s) |}.

(** What can happen to the application: the two callbacks of the key
    listener, the two signals connected in [start_result_thread]
    ([resultSignal], and [closeSignal] of the status window), an
    explicit start request, the [run] of some thread returning, and
    the settings window being closed. *)
Inductive event :=
| Activation
| Deactivation
| ResultSignal (result : string)
| CloseSignal
| StartRequest
| ThreadFinished (i : nat)
| SettingsClosed (config_file initialized : bool).

Definition finish (t : result_thread_obj) : result_thread_obj :=
  {| running := false;
     stop_recording_calls := stop_recording_calls t;
     stop_calls := stop_calls t |}.

Definition step (s : app) (e : event) : app :=
  match e with
  | Activation => on_activation s
  | Deactivation => on_deactivation s
  | ResultSignal result => on_transcription_complete result s
  | CloseSignal => stop_result_thread stop_waits s
  | StartRequest => start_result_thread s
  | ThreadFinished i =>
      {| threads := update i finish (threads s); result_thread := result_thread s;
         typed := typed s; key_listener_starts := key_listener_starts s |}
  | SettingsClosed config_file initialized =>
      on_settings_closed config_file initialized s
  end.

(** The state after a sequence of events, each handled to completion
    before the next. *)
Definition run (events : list event) : app := fold_left step events initial.

End Handlers.

(** The number of threads for which [isRunning()] holds. *)
Definition running_count (s : app) : nat :=
  length (filter running (threads s)).

(** Every running thread is the one [self.result_thread] refers to. *)
Definition only_current_runs (l : list result_thread_obj) (cur : option nat) : Prop :=
  forall i t, nth_error l i = Some t -> running t = true -> cur = Some i.

End App.

(* ================================================================= *)
(** ** Notions used to state the properties *)

(** The phrases of the handlers called, in order. *)
Definition invocations (tr : trace) : list string :=
  flat_map (fun e => match e with Invoked p => [p] | _ => [] end) tr.

(** A handler that calls no registered handler itself. *)
Definition quiet (h : handler) : Prop :=
  forall t tr, invocations (snd (h t tr)) = invocations tr.

(** Does the phrase of a registry entry occur in the sanitized text? *)
Definition phrase_in (sanitized : string) (entry : string * handler) : bool :=
  Str.contains (fst entry) sanitized.

(** The post-processing steps as the specification lists them,
    section 4.5: (2) trailing period, (3) trailing space, (4) case. *)
Definition remove_trailing_period_step (pp : post_processing) (text : string) : string :=
  if remove_trailing_period pp && Str.endswith_period text
  then Str.drop_last text else text.

Definition add_trailing_space_step (pp : post_processing) (text : string) : string :=
  if add_trailing_space pp then text ++ " " else text.

Definition remove_capitalization_step (pp : post_processing) (text : string) : string :=
  if remove_capitalization pp then Str.lower text else text.

Definition flag_steps (pp : post_processing) (text : string) : string :=
  remove_capitalization_step pp
    (add_trailing_space_step pp (remove_trailing_period_step pp text)).

(** [TextPostProcessor.apply] of the specification: (1) trim, then the
    three flag steps. *)
Definition TextPostProcessor_apply (pp : post_processing) (text : string) : string :=
  flag_steps pp (Str.strip text).

(** [p] holds of each of the [2^k] integers from [lo] on. *)
Fixpoint all_from (k : nat) (lo : Z) (p : Z -> bool) : bool :=
  match k with
  | O => p lo
  | S k' => all_from k' lo p && all_from k' (lo + 2 ^ Z.of_nat k')%Z p
  end.

(** [x] is exactly the rational [q]. *)
Definition represents (x : F32.float32) (q : Q) : bool :=
  match F32.to_Q x with
  | Some v => Qeq_bool v q
  | None => false
  end.

(** *** Sample configurations and collaborators *)

Module Sample.

Definition all_flags : post_processing :=
  {| remove_trailing_period := true;
     add_trailing_space := true;
     remove_capitalization := true |}.

Definition no_flags : post_processing :=
  {| remove_trailing_period := false;
     add_trailing_space := false;
     remove_capitalization := false |}.

Definition options (pp : post_processing) (api_on : bool) : config :=
  {| cfg_model_options :=
       {| use_api := api_on;
          local := {| compute_type := "int8"; model_path := None; device := "cuda";
                      model := "base"; condition_on_previous_text := true;
                      vad_filter := false |};
          api := {| base_url := None; api_model := "whisper-1" |};
          common := {| language := None; initial_prompt := None;
                       temperature := Qmake 0 1 |} |};
     cfg_post_processing := pp;
     cfg_sample_rate := None |}.

(** Every collaborator answers; the backends hear nothing. *)
Definition calm : environment :=
  {| env_WhisperModel := fun _ _ => None;
     env_local_transcribe := fun _ _ => Returns [];
     env_OPENAI_API_KEY := Some "sk-test";
     env_OpenAI := fun _ _ _ => None;
     env_sf_write := fun _ _ _ => None;
     env_api_transcribe := fun _ _ => Returns EmptyString;
     env_Popen := fun _ _ => None |}.

(** The model constructor, both backends and [Popen] raise; the API
    client can be built and the WAV written. *)
Definition broken : environment :=
  {| env_WhisperModel := fun _ _ => Some (Exception "no device");
     env_local_transcribe := fun _ _ => Raises (Exception "inference failed");
     env_OPENAI_API_KEY := Some "sk-test";
     env_OpenAI := fun _ _ _ => None;
     env_sf_write := fun _ _ _ => None;
     env_api_transcribe := fun _ _ => Raises (Exception "connection refused");
     env_Popen := fun _ _ => Some (Exception "cannot spawn") |}.

(** No API key in the environment: the client cannot be built. *)
Definition no_key : environment :=
  {| env_WhisperModel := fun _ _ => None;
     env_local_transcribe := fun _ _ => Returns [];
     env_OPENAI_API_KEY := None;
     env_OpenAI := fun _ key _ =>
       match key with
       | None => Some (Exception "api_key must be set")
       | Some _ => None
       end;
     env_sf_write := fun _ _ _ => None;
     env_api_transcribe := fun _ _ => Returns EmptyString;
     env_Popen := fun _ _ => None |}.

Definition base_on_cpu : whisper_model :=
  {| wm_model := "base"; wm_device := "cpu"; wm_compute_type := "int8" |}.

(** A handler that raises, and one that reports success. *)
Definition raising : handler := fun _ tr => (Raises (Exception "handler failed"), tr).

Definition handle_open : handler := fun transcription => ret (true, transcription).

End Sample.

(* ================================================================= *)
(** ** Notions used to state the further properties *)

(** [COMMAND_HANDLERS.get(phrase)] *)
Fixpoint registry_get (phrase : string) (handlers : registry) : option handler :=
  match handlers with
  | [] => None
  | (p, h) :: rest => if String.eqb p phrase then Some h else registry_get phrase rest
  end.

(** The registry after a sequence of [@register_command(phrase)]
    decorations, starting from the empty [dict]. *)
Definition registered (decorations : list (string * handler)) : registry :=
  fold_left (fun handlers d => register_command (fst d) (snd d) handlers) decorations [].

(** The identifier both attempts of [create_local_model] load:
    [model_path or local_model_options['model']]. *)
Definition model_identifier (o : local_options) : string :=
  or_else (model_path o) (model o).

Definition first_attempt (o : local_options) : whisper_model :=
  {| wm_model := model_identifier o;
     wm_device := if String.eqb (compute_type o) "int8" then "cpu" else device o;
     wm_compute_type := compute_type o |}.

Definition cpu_fallback (o : local_options) : whisper_model :=
  {| wm_model := model_identifier o;
     wm_device := "cpu";
     wm_compute_type := compute_type o |}.

Definition open_edge_command : string := "start /WAIT microsoft-edge:".

(** The arguments [transcribe_local] passes to the model, and the ones
    [transcribe_api] passes to the client constructor, to [sf.write]
    and to the request. *)
Definition local_request_of (cfg : config) (m : whisper_model) (audio : list Z)
  : local_request :=
  {| lr_model := m;
     lr_audio := List.map scale_sample audio;
     lr_language := language (common (cfg_model_options cfg));
     lr_initial_prompt := initial_prompt (common (cfg_model_options cfg));
     lr_condition_on_previous_text :=
       condition_on_previous_text (local (cfg_model_options cfg));
     lr_temperature := temperature (common (cfg_model_options cfg));
     lr_vad_filter := vad_filter (local (cfg_model_options cfg)) |}.

Definition api_key_of (env : environment) : option string :=
  if truthy (env_OPENAI_API_KEY env) then env_OPENAI_API_KEY env else None.

Definition base_url_of (cfg : config) : string :=
  or_else (base_url (api (cfg_model_options cfg))) "https://api.openai.com/v1".

Definition sample_rate_of (cfg : config) : Z :=
  match cfg_sample_rate cfg with
  | Some r => if (r =? 0)%Z then 16000%Z else r
  | None => 16000%Z
  end.

Definition api_request_of (cfg : config) (audio : list Z) : api_request :=
  {| ar_base_url := base_url_of cfg;
     ar_model := api_model (api (cfg_model_options cfg));
     ar_wav_samples := audio;
     ar_wav_rate := sample_rate_of cfg;
     ar_language := language (common (cfg_model_options cfg));
     ar_prompt := initial_prompt (common (cfg_model_options cfg));
     ar_temperature := temperature (common (cfg_model_options cfg)) |}.

(** The results carried by the result signals of a sequence of events,
    in order. *)
Definition results_of (events : list App.event) : list string :=
  flat_map (fun e => match e with App.ResultSignal r => [r] | _ => [] end) events.

Definition is_CloseSignal (e : App.event) : bool :=
  match e with App.CloseSignal => true | _ => false end.

(** The event that makes [on_settings_closed] run
    [initialize_components]: the settings window closed without a
    configuration file, and the initialisation reaching its end.
    Only the first of these events can find the components not yet
    initialised. *)
Definition is_reinitialisation (e : App.event) : bool :=
  match e with
  | App.SettingsClosed false true => true
  | _ => false
  end.

Definition reinitialisations (events : list App.event) : nat :=
  length (filter is_reinitialisation events).

Definition no_reinitialisation (events : list App.event) : bool :=
  forallb (fun e => negb (is_reinitialisation e)) events.

(** [self.result_thread], when set, refers to the thread created last;
    it is unset only if no thread was created or the components were
    initialised again. *)
Definition newest (reinitialised : bool) (s : App.app) : Prop :=
  match App.result_thread s with
  | None => App.threads s = [] \/ reinitialised = true
  | Some i => S i = length (App.threads s)
  end.

(** What a later state keeps of a thread object: it is still there, at
    the same place; if it had stopped it is still stopped; the requests
    made of it have not been forgotten. *)
Definition kept (t t' : App.result_thread_obj) : Prop :=
  (App.running t = false -> App.running t' = false) /\
  App.stop_recording_calls t <= App.stop_recording_calls t' /\
  App.stop_calls t <= App.stop_calls t'.

Definition persists (l l' : list App.result_thread_obj) : Prop :=
  forall i t, nth_error l i = Some t -> exists t', nth_error l' i = Some t' /\ kept t t'.



(* ================================================================= *)
(** * Properties *)

(** ** Evaluation on sample inputs *)

Example sanitize_ex1 :
  sanitize_text "  Wiz, OPEN   Edge!  please. " = "wiz open edge please".
Proof. reflexivity. Qed.

Example sub_ex1 :
  Re.sub_empty Re.wiz_open_edge "Hey Wiz  OPEN edge, then wiz open edge." = "Hey , then .".
Proof. reflexivity. Qed.

Example sub_ex2 : Re.sub_empty Re.wiz_open_edge "wiz openedge" = "wiz openedge".
Proof. reflexivity. Qed.

Example scale_ex1 : scale_sample (-32768) = S754_finite true 8388608 (-23).
Proof. reflexivity. Qed.

Example scale_ex2 : scale_sample 32767 = S754_finite false 16776704 (-24).
Proof. reflexivity. Qed.

Example scale_ex3 : scale_sample 0 = S754_zero false.
Proof. reflexivity. Qed.

(** ** [sanitize_text] *)

Lemma sanitize_text_unfold (text : string) :
  sanitize_text text = Str.join " " (Str.split (Str.map clean_char text)).
Proof.
  unfold sanitize_text, sub_nonword_nonspace, Str.lower. f_equal. f_equal.
  induction text as [|c s IH]; simpl; [reflexivity|]. now rewrite IH.
Qed.

(** *** Facts about single characters, by enumeration of the 256 code points *)

Ltac each_char c :=
  destruct c as [[] [] [] [] [] [] [] []]; vm_compute; try reflexivity; try discriminate.

Lemma clean_char_settles (c : ascii) :
  Char.is_space (clean_char c) || settled (clean_char c) = true.
Proof. each_char c. Qed.

Lemma clean_char_space (c : ascii) :
  Char.is_space c = true -> clean_char c = c.
Proof. each_char c. Qed.

Lemma punctuation_not_word (c : ascii) :
  Char.is_punctuation c = true -> Char.is_word c = true -> c = "_"%char.
Proof. each_char c. Qed.

(** *** [split] and [join] *)

Lemma split_cons (c : ascii) (s : string) :
  Str.split (String c s) =
  if Char.is_space c then Str.split s
  else if starts_word s
       then match Str.split s with
            | w :: ws => String c w :: ws
            | [] => [String c EmptyString]
            end
       else String c EmptyString :: Str.split s.
Proof.
  cbn [Str.split]. destruct (Char.is_space c); [reflexivity|].
  destruct s as [|d s']; [reflexivity|].
  cbn [starts_word]. destruct (Char.is_space d); reflexivity.
Qed.

Lemma split_words (p : ascii -> bool) (s : string) :
  Str.forallb p s = true ->
  Forall (word_of (fun c => p c && negb (Char.is_space c))) (Str.split s).
Proof.
  induction s as [|c s IH]; intros Hp; [constructor|].
  cbn [Str.forallb] in Hp. apply andb_true_iff in Hp as [Hc Hs].
  specialize (IH Hs). rewrite split_cons.
  destruct (Char.is_space c) eqn:Ec; [exact IH|].
  assert (Hone : word_of (fun c => p c && negb (Char.is_space c)) (String c EmptyString)).
  { split; [discriminate|]. cbn. now rewrite Hc, Ec. }
  destruct (starts_word s).
  - destruct (Str.split s) as [|w ws]; [now constructor|].
    inversion IH as [|? ? [Hw1 Hw2] Hws]; subst. constructor; [|exact Hws].
    split; [discriminate|]. cbn. now rewrite Hc, Ec, Hw2.
  - now constructor.
Qed.

Lemma split_word_app (w r : string) :
  word_of (fun c => negb (Char.is_space c)) w ->
  starts_word r = false ->
  Str.split (w ++ r) = w :: Str.split r.
Proof.
  intros [Hne Hw] Hr. induction w as [|c w IH]; [congruence|].
  cbn [Str.forallb] in Hw. apply andb_true_iff in Hw as [Hc Hw].
  apply negb_true_iff in Hc.
  change (String c w ++ r) with (String c (w ++ r)).
  rewrite split_cons, Hc. destruct w as [|c' w'].
  - change (EmptyString ++ r) with r. now rewrite Hr.
  - assert (Hst : starts_word (String c' w' ++ r) = true).
    { cbn in Hw |- *. now apply andb_true_iff in Hw as [-> _]. }
    rewrite Hst, IH; [reflexivity|discriminate|exact Hw].
Qed.

Lemma append_empty_r (s : string) : s ++ EmptyString = s.
Proof. induction s as [|c s IH]; cbn; [reflexivity|now rewrite IH]. Qed.

Lemma split_join (ws : list string) :
  Forall (word_of (fun c => negb (Char.is_space c))) ws ->
  Str.split (Str.join " " ws) = ws.
Proof.
  unfold Str.join. induction 1 as [|w ws Hw Hws IH]; [reflexivity|].
  destruct ws as [|w' ws'].
  - cbn [String.concat]. rewrite <- (append_empty_r w) at 1.
    now rewrite split_word_app.
  - change (String.concat " " (w :: w' :: ws'))
      with (w ++ String " " (String.concat " " (w' :: ws'))).
    rewrite split_word_app; [|exact Hw|reflexivity].
    rewrite split_cons. cbn [Char.is_space]. 
    replace (Char.is_space " ") with true by reflexivity. now rewrite IH.
Qed.

Lemma map_append (f : ascii -> ascii) (s t : string) :
  Str.map f (s ++ t) = Str.map f s ++ Str.map f t.
Proof. induction s as [|c s IH]; cbn; [reflexivity|now rewrite IH]. Qed.

Lemma map_fixed (f : ascii -> ascii) (s : string) :
  Str.forallb (fun c => Ascii.eqb (f c) c) s = true -> Str.map f s = s.
Proof.
  induction s as [|c s IH]; cbn; [reflexivity|].
  intros H. apply andb_true_iff in H as [Hc Hs].
  apply Ascii.eqb_eq in Hc. now rewrite Hc, IH.
Qed.

Lemma forallb_impl (p q : ascii -> bool) (s : string) :
  (forall c, p c = true -> q c = true) ->
  Str.forallb p s = true -> Str.forallb q s = true.
Proof.
  intros Hpq. induction s as [|c s IH]; cbn; [reflexivity|].
  intros H. apply andb_true_iff in H as [Hc Hs]. now rewrite (Hpq _ Hc), IH.
Qed.

Lemma forallb_map (p : ascii -> bool) (f : ascii -> ascii) (s : string) :
  (forall c, p (f c) = true) -> Str.forallb p (Str.map f s) = true.
Proof. intros H. induction s as [|c s IH]; cbn; [reflexivity|]. now rewrite H, IH. Qed.

Lemma map_join_space (f : ascii -> ascii) (ws : list string) :
  f " "%char = " "%char ->
  Forall (fun w => Str.map f w = w) ws ->
  Str.map f (Str.join " " ws) = Str.join " " ws.
Proof.
  intros Hsp. unfold Str.join. induction 1 as [|w ws Hw Hws IH]; [reflexivity|].
  destruct ws as [|w' ws']; [exact Hw|].
  change (String.concat " " (w :: w' :: ws'))
    with (w ++ String " " (String.concat " " (w' :: ws'))).
  rewrite map_append. cbn [Str.map]. now rewrite Hw, Hsp, IH.
Qed.

Lemma sanitized_words_settled (text : string) :
  Forall (word_of (fun c => settled c && negb (Char.is_space c))) (sanitized_words text).
Proof.
  unfold sanitized_words.
  pose proof (split_words (fun c => Char.is_space c || settled c)
                (Str.map clean_char text)
                (forallb_map _ _ _ clean_char_settles)) as H.
  eapply Forall_impl; [|exact H]. intros w [Hne Hw]. split; [exact Hne|].
  eapply forallb_impl; [|exact Hw]. intros c. cbv beta.
  destruct (Char.is_space c), (settled c); cbn; congruence.
Qed.

Lemma sanitize_text_idempotent (text : string) :
  sanitize_text (sanitize_text text) = sanitize_text text.
Proof.
  rewrite (sanitize_text_unfold (sanitize_text text)), (sanitize_text_unfold text).
  fold (sanitized_words text).
  pose proof (sanitized_words_settled text) as Hws.
  rewrite map_join_space.
  - rewrite split_join; [reflexivity|].
    eapply Forall_impl; [|exact Hws]. intros w [Hne Hw]. split; [exact Hne|].
    eapply forallb_impl; [|exact Hw]. intros c Hc.
    now apply andb_true_iff in Hc as [_ Hc].
  - reflexivity.
  - eapply Forall_impl; [|exact Hws]. intros w [_ Hw]. apply map_fixed.
    eapply forallb_impl; [|exact Hw]. intros c Hc. unfold settled in Hc.
    now repeat (apply andb_true_iff in Hc as [Hc _]).
Qed.

(** *** The characters of a sanitized text *)

Lemma forallb_append (p : ascii -> bool) (s t : string) :
  Str.forallb p (s ++ t) = Str.forallb p s && Str.forallb p t.
Proof. induction s as [|c s IH]; cbn; [reflexivity|]. now rewrite IH, andb_assoc. Qed.

Lemma forallb_join_space (p : ascii -> bool) (ws : list string) :
  p " "%char = true ->
  Forall (fun w => Str.forallb p w = true) ws ->
  Str.forallb p (Str.join " " ws) = true.
Proof.
  intros Hsp. unfold Str.join. induction 1 as [|w ws Hw Hws IH]; [reflexivity|].
  destruct ws as [|w' ws']; [exact Hw|].
  change (String.concat " " (w :: w' :: ws'))
    with (w ++ String " " (String.concat " " (w' :: ws'))).
  rewrite forallb_append. cbn [Str.forallb]. now rewrite Hw, Hsp, IH.
Qed.

Lemma settled_char_plain (c : ascii) :
  Ascii.eqb c " " || settled c = true ->
  negb (Char.is_upper c) && (negb (Char.is_punctuation c) || Ascii.eqb c "_") = true.
Proof. each_char c. Qed.

(** A sanitized text consists of single spaces and of lower-case word
    characters. *)
Lemma sanitize_text_chars (text : string) :
  Str.forallb (fun c => Ascii.eqb c " " || settled c) (sanitize_text text) = true.
Proof.
  rewrite sanitize_text_unfold. fold (sanitized_words text).
  apply forallb_join_space; [reflexivity|].
  eapply Forall_impl; [|apply sanitized_words_settled]. intros w [_ Hw].
  eapply forallb_impl; [|exact Hw]. intros c Hc. cbv beta in Hc.
  apply andb_true_iff in Hc as [Hc _]. rewrite Hc. apply orb_true_r.
Qed.

(** No upper-case letter is left, and no punctuation character other
    than the underscore. *)
Lemma sanitize_text_plain (text : string) :
  Str.forallb (fun c => negb (Char.is_upper c)
                        && (negb (Char.is_punctuation c) || Ascii.eqb c "_"))
    (sanitize_text text) = true.
Proof.
  eapply forallb_impl; [|apply sanitize_text_chars]. exact settled_char_plain.
Qed.

(** C10.  The underscore is a punctuation character that [sanitize_text]
    keeps: [\w] counts it as a word character, so [[^\w\s]] does not
    match it.  A sanitized text can therefore contain punctuation, and a
    command spelled with underscores is not found while the same
    command spelled with hyphens is. *)
Theorem C10_underscore_survives :
  sanitize_text "Wiz_Open_Edge!" = "wiz_open_edge" /\
  Char.is_punctuation "_" = true /\
  Str.forallb (fun c => negb (Char.is_punctuation c)) (sanitize_text "Wiz_Open_Edge!")
  = false /\
  Str.contains "wiz open edge" (sanitize_text "Wiz_Open_Edge!") = false /\
  Str.contains "wiz open edge" (sanitize_text "Wiz-Open-Edge!") = true.
Proof. repeat split; vm_compute; reflexivity. Qed.

(* ================================================================= *)
(** ** The result thread of the application *)

Module AppFacts.
Import App.

Lemma nth_error_update (f : result_thread_obj -> result_thread_obj) l i j :
  nth_error (update i f l) j =
  if Nat.eqb i j then option_map f (nth_error l j) else nth_error l j.
Proof.
  revert i j. induction l as [|t l IH]; intros i j.
  - cbn. destruct (Nat.eqb i j), j; reflexivity.
  - destruct i as [|i], j as [|j]; cbn; try reflexivity. apply IH.
Qed.

(** Updating a thread object never turns a stopped thread into a
    running one, as long as [f] does not. *)
Lemma only_current_runs_update f l cur i :
  (forall t, running (f t) = true -> running t = true) ->
  only_current_runs l cur -> only_current_runs (update i f l) cur.
Proof.
  intros Hf Hinv j t Hj Hrun. rewrite nth_error_update in Hj.
  destruct (Nat.eqb i j) eqn:E.
  - destruct (nth_error l j) as [t0|] eqn:Hl; [|discriminate].
    injection Hj as <-. eapply Hinv; eauto.
  - eapply Hinv; eauto.
Qed.

Definition inv (s : app) : Prop := only_current_runs (threads s) (result_thread s).

Lemma inv_on_result_thread f s :
  (forall t, running (f t) = true -> running t = true) ->
  inv s -> inv (on_result_thread f s).
Proof.
  intros Hf Hinv. unfold on_result_thread, inv in *.
  destruct (result_thread s) as [i|] eqn:E; cbn; [|now rewrite E].
  now apply only_current_runs_update.
Qed.

Lemma inv_stop_recording s : inv s -> inv (stop_recording s).
Proof. apply inv_on_result_thread. now intros []. Qed.

Lemma inv_stop w s : inv s -> inv (stop w s).
Proof.
  apply inv_on_result_thread. intros [] H. cbn in *. now destruct w.
Qed.

Lemma inv_stop_result_thread w s : inv s -> inv (stop_result_thread w s).
Proof.
  intros H. unfold stop_result_thread.
  destruct (result_thread_isRunning s); [now apply inv_stop|exact H].
Qed.

(** When [self.result_thread] is not running, no thread is. *)
Lemma idle_all_stopped s i t :
  inv s -> result_thread_isRunning s = false ->
  nth_error (threads s) i = Some t -> running t = false.
Proof.
  intros Hinv Hidle Hi. destruct (running t) eqn:Hrun; [|reflexivity].
  specialize (Hinv i t Hi Hrun). unfold result_thread_isRunning in Hidle.
  rewrite Hinv, Hi in Hidle. congruence.
Qed.

Lemma inv_start_result_thread s : inv s -> inv (start_result_thread s).
Proof.
  intros Hinv. unfold start_result_thread.
  destruct (result_thread_isRunning s) eqn:Hidle; [exact Hinv|].
  intros i t Hi Hrun. cbn in *.
  destruct (Nat.lt_ge_cases i (length (threads s))) as [Hlt|Hge].
  - rewrite nth_error_app1 in Hi by exact Hlt.
    rewrite (idle_all_stopped s i t Hinv Hidle Hi) in Hrun. discriminate.
  - rewrite nth_error_app2 in Hi by exact Hge.
    destruct (i - length (threads s)) as [|k] eqn:Hk.
    + f_equal. lia.
    + cbn in Hi. destruct k; discriminate.
Qed.

(** Every handler but the re-initialisation keeps the invariant. *)
Lemma inv_step opts w s e :
  is_reinitialisation e = false -> inv s -> inv (step opts w s e).
Proof.
  intros He Hinv. destruct e as [| |result| | |i|c ini]; cbn [step].
  - unfold on_activation. destruct (result_thread_isRunning s).
    + destruct (String.eqb _ _); [now apply inv_stop_recording|].
      destruct (String.eqb _ _); [now apply inv_stop_result_thread|exact Hinv].
    + now apply inv_start_result_thread.
  - unfold on_deactivation. destruct (String.eqb _ _); [|exact Hinv].
    destruct (result_thread_isRunning s); [now apply inv_stop_recording|exact Hinv].
  - unfold on_transcription_complete.
    destruct (String.eqb _ _); [|exact Hinv].
    apply inv_start_result_thread. exact Hinv.
  - now apply inv_stop_result_thread.
  - now apply inv_start_result_thread.
  - unfold inv. cbn. apply only_current_runs_update; [now intros []|exact Hinv].
  - destruct c, ini; try exact Hinv. discriminate He.
Qed.

Lemma inv_fold opts w events : forall s,
  no_reinitialisation events = true ->
  inv s -> inv (fold_left (step opts w) events s).
Proof.
  induction events as [|e events IH]; intros s Hev H; [exact H|].
  cbn in Hev. apply andb_true_iff in Hev as [He Hev]. apply negb_true_iff in He.
  cbn [fold_left]. apply IH; [exact Hev|]. now apply inv_step.
Qed.

Lemma inv_run opts w events :
  no_reinitialisation events = true -> inv (run opts w events).
Proof. intros Hev. apply inv_fold; [exact Hev|]. intros i t Hi. destruct i; discriminate. Qed.

Lemma no_reinitialisation_firstn events n :
  no_reinitialisation events = true -> no_reinitialisation (firstn n events) = true.
Proof.
  revert n. induction events as [|e events IH]; intros n H; [now destruct n|].
  destruct n; [reflexivity|]. unfold no_reinitialisation in *.
  cbn [firstn forallb] in H |- *. apply andb_true_iff in H as [He H].
  apply andb_true_iff. split; [exact He|exact (IH n H)].
Qed.

Lemma none_running_count l :
  (forall i t, nth_error l i = Some t -> running t = false) ->
  length (filter running l) = 0.
Proof.
  induction l as [|t l IH]; intros H; [reflexivity|].
  cbn. rewrite (H 0 t eq_refl). apply IH. intros i t' Hi. exact (H (S i) t' Hi).
Qed.

Lemma only_current_runs_count l cur :
  only_current_runs l cur -> length (filter running l) <= 1.
Proof.
  revert cur. induction l as [|t l IH]; intros cur H; [cbn; lia|].
  cbn. destruct (running t) eqn:Ht.
  - pose proof (H 0 t eq_refl Ht) as Hcur. cbn.
    rewrite none_running_count; [lia|].
    intros i t' Hi. destruct (running t') eqn:Ht'; [|reflexivity].
    pose proof (H (S i) t' Hi Ht'). congruence.
  - apply (IH (match cur with Some (S k) => Some k | _ => None end)).
    intros i t' Hi Ht'. now rewrite (H (S i) t' Hi Ht').
Qed.

End AppFacts.


(* ================================================================= *)
(** ** Sample scaling in [transcribe_local] *)

Lemma all_from_spec (k : nat) : forall lo p z,
  all_from k lo p = true -> (lo <= z < lo + 2 ^ Z.of_nat k)%Z -> p z = true.
Proof.
  induction k as [|k IH]; intros lo p z H Hz.
  - cbn in *. assert (z = lo) by lia. now subst.
  - cbn [all_from] in H. apply andb_true_iff in H as [H1 H2].
    rewrite Nat2Z.inj_succ, Z.pow_succ_r in Hz by lia.
    destruct (Z.lt_ge_cases z (lo + 2 ^ Z.of_nat k)).
    + apply (IH lo); [exact H1|lia].
    + apply (IH (lo + 2 ^ Z.of_nat k)%Z); [exact H2|lia].
Qed.

(** The 65536 samples, one by one. *)
Lemma scale_sample_exact_all :
  all_from 16 (-32768) (fun s => represents (scale_sample s) (Qmake s 32768)) = true.
Proof. vm_compute. reflexivity. Qed.

Lemma scale_sample_exact (s : Z) :
  is_int16 s = true -> represents (scale_sample s) (Qmake s 32768) = true.
Proof.
  unfold is_int16. intros H. apply andb_true_iff in H as [Hlo Hhi].
  apply Z.leb_le in Hlo, Hhi.
  apply (all_from_spec 16 (-32768)%Z _ s scale_sample_exact_all).
  change (2 ^ Z.of_nat 16)%Z with 65536%Z. lia.
Qed.

(** C7.  Every int16 sample reaches the local backend as the binary32
    number that is exactly the sample divided by 32768: the request
    carries [scale_sample] of each sample, which is finite and equal, as
    a rational, to [sample / 32768].  In particular 32767 becomes
    16776704 * 2^-24 = 32767/32768 and -32768 becomes -1.0. *)
Theorem C7_local_backend_scaling
  (env : environment) (cfg : config) (m : whisper_model) (audio : list Z) (tr : trace) :
  Forall (fun s => is_int16 s = true) audio ->
  (exists r,
     snd (transcribe_local env cfg audio (Some m) tr) = (tr ++ [LocalTranscribe r])%list /\
     lr_audio r = List.map scale_sample audio /\
     Forall2 (fun s x => exists q, F32.to_Q x = Some q /\ Qeq q (Qmake s 32768))
       audio (lr_audio r)) /\
  scale_sample 32767 = S754_finite false 16776704 (-24) /\
  scale_sample (-32768) = F32.of_int16 (-1) /\
  F32.of_int16 (-1) = S754_finite true 8388608 (-23).
Proof.
  intros Haudio. split; [|repeat split; reflexivity].
  eexists. split; [|split].
  - unfold transcribe_local, local_model_transcribe, bind, call, ret. cbn.
    destruct (env_local_transcribe env tr _); reflexivity.
  - reflexivity.
  - cbn [lr_audio]. induction Haudio as [|s audio Hs _ IH]; cbn; constructor; [|exact IH].
    pose proof (scale_sample_exact s Hs) as Hall. unfold represents in Hall.
    destruct (F32.to_Q (scale_sample s)) as [q|]; [|discriminate].
    exists q. split; [reflexivity|]. now apply Qeq_bool_iff.
Qed.

Lemma C7_witness :
  Forall (fun s => is_int16 s = true) [32767; -32768; 0; 1]%Z /\
  snd (transcribe_local Sample.calm (Sample.options Sample.no_flags false)
         [32767; -32768; 0; 1]%Z (Some Sample.base_on_cpu) []) <> [] /\
  scale_sample (-32768) = S754_finite true 8388608 (-23).
Proof.
  assert (H : Forall (fun s => is_int16 s = true) [32767; -32768; 0; 1]%Z)
    by (repeat constructor).
  destruct (C7_local_backend_scaling Sample.calm (Sample.options Sample.no_flags false)
              Sample.base_on_cpu [32767; -32768; 0; 1]%Z [] H)
    as [[r [Htr _]] [_ [H1 H2]]].
  split; [exact H|]. split.
  - rewrite Htr. discriminate.
  - now rewrite H1.
Defined.

(* ================================================================= *)
(** ** [create_local_model] *)

(** C9.  With [compute_type] equal to ['int8'], every [WhisperModel]
    that [create_local_model] constructs (the first attempt, and the
    fallback when that one raises) is asked for the ['cpu'] device,
    whatever [device] the configuration names; at least one is
    constructed, and the model returned is on the CPU. *)
Theorem C9_int8_forces_cpu (env : environment) (cfg : config) (tr : trace) :
  compute_type (local (cfg_model_options cfg)) = "int8" ->
  exists new,
    snd (create_local_model env cfg tr) = (tr ++ new)%list /\
    new <> [] /\
    Forall (fun e => exists m, e = WhisperModel m /\ wm_device m = "cpu") new /\
    (forall m, fst (create_local_model env cfg tr) = Returns m -> wm_device m = "cpu").
Proof.
  intros Hint8. unfold create_local_model. rewrite Hint8.
  change (String.eqb "int8" "int8") with true. cbv iota.
  set (options := local (cfg_model_options cfg)).
  set (first_try := if truthy (model_path options) then _ else _).
  assert (Hfirst : exists m, wm_device m = "cpu" /\
            first_try = new_WhisperModel env m).
  { subst first_try. destruct (truthy (model_path options)); eexists; split;
      try reflexivity; reflexivity. }
  destruct Hfirst as [m1 [Hm1 ->]].
  unfold try_except, new_WhisperModel, bind, call, ret, raised.
  destruct (env_WhisperModel env tr m1) as [e1|]; cbn.
  - set (m2 := {| wm_model := _; wm_device := "cpu"; wm_compute_type := _ |}).
    exists [WhisperModel m1; WhisperModel m2].
    destruct (env_WhisperModel env _ m2) as [e2|]; cbn;
      (split; [now rewrite <- app_assoc|]); (split; [discriminate|]);
      (split; [repeat constructor; eexists; split; try reflexivity; assumption|]).
    + intros m Hm. discriminate.
    + intros m Hm. injection Hm as <-. reflexivity.
  - exists [WhisperModel m1]. split; [reflexivity|]. split; [discriminate|].
    split; [repeat constructor; eexists; split; try reflexivity; assumption|].
    intros m Hm. injection Hm as <-. exact Hm1.
Qed.

Lemma C9_witness :
  compute_type (local (cfg_model_options (Sample.options Sample.no_flags false))) = "int8" /\
  device (local (cfg_model_options (Sample.options Sample.no_flags false))) = "cuda" /\
  exists new,
    snd (create_local_model Sample.broken (Sample.options Sample.no_flags false) []) = new /\
    Forall (fun e => exists m, e = WhisperModel m /\ wm_device m = "cpu") new.
Proof.
  split; [reflexivity|]. split; [reflexivity|].
  destruct (C9_int8_forces_cpu Sample.broken (Sample.options Sample.no_flags false) []
              eq_refl) as [new [Htr [_ [Hall _]]]].
  exists new. split; [exact Htr|exact Hall].
Defined.

(* ================================================================= *)
(** ** [execute_commands] *)

Lemma find_first {A} (f : A -> bool) (l : list A) (x : A) :
  find f l = Some x ->
  exists pre post, l = (pre ++ x :: post)%list /\
                   Forall (fun y => f y = false) pre /\ f x = true.
Proof.
  induction l as [|a l IH]; [discriminate|]. cbn. destruct (f a) eqn:Ea.
  - intros [= ->]. exists [], l. now repeat split.
  - intros H. destruct (IH H) as [pre [post [-> [Hpre Hx]]]].
    exists (a :: pre), post. repeat split; [now constructor|exact Hx].
Qed.

Lemma find_none {A} (f : A -> bool) (l : list A) :
  find f l = None -> Forall (fun y => f y = false) l.
Proof.
  induction l as [|a l IH]; [constructor|]. cbn. destruct (f a) eqn:Ea; [discriminate|].
  intros H. constructor; [exact Ea|exact (IH H)].
Qed.

(** The loop stops at the first entry whose phrase occurs in the
    sanitized text, and runs the handler of that entry only. *)
Lemma scan_commands_find (items : registry) (sanitized t : string) (tr : trace) :
  scan_commands items sanitized t tr =
  match find (phrase_in sanitized) items with
  | Some (p, h) => (emit (Invoked p) ;; h t) tr
  | None => (Returns (false, t), tr)
  end.
Proof.
  induction items as [|[p h] items IH]; [reflexivity|].
  cbn [scan_commands find]. unfold phrase_in at 1. cbn [fst].
  destruct (Str.contains p sanitized); [reflexivity|exact IH].
Qed.

Lemma invocations_app (tr1 tr2 : trace) :
  invocations (tr1 ++ tr2)%list = (invocations tr1 ++ invocations tr2)%list.
Proof. apply flat_map_app. Qed.

Lemma handle_open_edge_quiet (env : environment) : quiet (handle_open_edge env).
Proof.
  intros t tr. unfold handle_open_edge, try_except, bind, subprocess_Popen, call, ret, raised.
  destruct (env_Popen env tr _); cbn; rewrite invocations_app; cbn; apply app_nil_r.
Qed.

Lemma handle_open_quiet : quiet Sample.handle_open.
Proof. intros t tr. reflexivity. Qed.

(** C4.  [execute_commands] selects the first entry of the registry, in
    iteration order, whose phrase is a substring of the sanitized text:
    every entry before it does not match, its handler is the one that
    runs, on the unsanitized text, and it is the only handler invoked;
    without a match none is.  With ["wiz open edge"] registered before
    ["wiz open"], a text whose sanitized form contains the first phrase
    (and so the second) runs the first handler only. *)
Theorem C4_first_match (handlers : registry) (t : string) (tr : trace) :
  Forall (fun entry => quiet (snd entry)) handlers ->
  match find (phrase_in (sanitize_text t)) handlers with
  | Some (p, h) =>
      (exists pre post,
         handlers = (pre ++ (p, h) :: post)%list /\
         Forall (fun entry => phrase_in (sanitize_text t) entry = false) pre) /\
      Str.contains p (sanitize_text t) = true /\
      execute_commands handlers t tr = (emit (Invoked p) ;; h t) tr /\
      invocations (snd (execute_commands handlers t tr)) = (invocations tr ++ [p])%list
  | None =>
      Forall (fun entry => phrase_in (sanitize_text t) entry = false) handlers /\
      execute_commands handlers t tr = (Returns (false, t), tr)
  end /\
  (forall h1 h2 : handler,
     Str.contains "wiz open edge" (sanitize_text t) = true ->
     execute_commands
       (register_command "wiz open" h2 (register_command "wiz open edge" h1 [])) t tr
     = (emit (Invoked "wiz open edge") ;; h1 t) tr).
Proof.
  intros Hquiet. split.
  - unfold execute_commands. rewrite scan_commands_find.
    destruct (find _ handlers) as [[p h]|] eqn:Hfind.
    + destruct (find_first _ _ _ Hfind) as [pre [post [Heq [Hpre Hp]]]].
      split; [now exists pre, post|]. split; [exact Hp|]. split; [reflexivity|].
      assert (Hq : quiet h).
      { rewrite Forall_forall in Hquiet. apply (Hquiet (p, h)).
        rewrite Heq. apply in_elt. }
      unfold bind, emit. rewrite Hq, invocations_app. reflexivity.
    + split; [now apply find_none|reflexivity].
  - intros h1 h2 Hin. unfold execute_commands. rewrite scan_commands_find.
    cbn. unfold phrase_in. cbn [fst]. now rewrite Hin.
Qed.

Lemma C4_witness :
  Forall (fun entry => quiet (snd entry))
    (register_command "wiz open" Sample.handle_open
       (register_command "wiz open edge" (handle_open_edge Sample.calm) [])) /\
  Str.contains "wiz open" (sanitize_text "Hey Wiz, open Edge!") = true /\
  invocations
    (snd (execute_commands
            (register_command "wiz open" Sample.handle_open
               (register_command "wiz open edge" (handle_open_edge Sample.calm) []))
            "Hey Wiz, open Edge!" []))
  = ["wiz open edge"].
Proof.
  assert (Hq : Forall (fun entry => quiet (snd entry))
    (register_command "wiz open" Sample.handle_open
       (register_command "wiz open edge" (handle_open_edge Sample.calm) []))).
  { cbn. apply Forall_cons; [apply handle_open_edge_quiet|].
    apply Forall_cons; [apply handle_open_quiet|apply Forall_nil]. }
  split; [exact Hq|]. split; [reflexivity|].
  pose proof (C4_first_match _ "Hey Wiz, open Edge!" [] Hq) as [H _].
  assert (Hfind :
    find (phrase_in (sanitize_text "Hey Wiz, open Edge!"))
      (register_command "wiz open" Sample.handle_open
         (register_command "wiz open edge" (handle_open_edge Sample.calm) []))
    = Some ("wiz open edge", handle_open_edge Sample.calm)) by reflexivity.
  rewrite Hfind in H. destruct H as [_ [_ [_ H]]]. exact H.
Defined.

Lemma execute_commands_no_match (handlers : registry) (t : string) (tr : trace) :
  forallb (fun entry => negb (phrase_in (sanitize_text t) entry)) handlers = true ->
  execute_commands handlers t tr = (Returns (false, t), tr).
Proof.
  intros Hnone. unfold execute_commands. rewrite scan_commands_find.
  destruct (find _ handlers) as [[p h]|] eqn:Hfind; [|reflexivity].
  destruct (find_first _ _ _ Hfind) as [pre [post [Heq [_ Hp]]]].
  rewrite forallb_forall in Hnone. specialize (Hnone (p, h)).
  rewrite Hp in Hnone. discriminate Hnone. rewrite Heq. apply in_elt.
Qed.

(** C5.  When no registered phrase occurs in the sanitized text,
    [execute_commands] returns [(False, transcription)] with the very
    text it was given, calls no handler and no collaborator. *)
Theorem C5_no_match_passes_through (handlers : registry) (t : string) (tr : trace) :
  forallb (fun entry => negb (phrase_in (sanitize_text t) entry)) handlers = true ->
  execute_commands handlers t tr = (Returns (false, t), tr).
Proof. apply execute_commands_no_match. Qed.

Lemma C5_witness :
  execute_commands (COMMAND_HANDLERS Sample.broken) "Wiz, open the window." []
  = (Returns (false, "Wiz, open the window."), []).
Proof.
  apply (C5_no_match_passes_through (COMMAND_HANDLERS Sample.broken)
           "Wiz, open the window." []).
  reflexivity.
Defined.

(** C6, as stated, fails: a matched handler that raises makes
    [execute_commands] raise; no [(False, text)] is returned. *)
Lemma C6_counterexample :
  Str.contains "stop" (sanitize_text "Stop!") = true /\
  execute_commands [("stop", Sample.raising)] "Stop!" []
  = (Raises (Exception "handler failed"), [Invoked "stop"]) /\
  fst (execute_commands [("stop", Sample.raising)] "Stop!" []) <> Returns (false, "Stop!").
Proof. split; [reflexivity|]. split; [reflexivity|]. discriminate. Qed.

(** C6, amended.  The recovery is the handler's own: when the matched
    handler is [handle_open_edge] and launching the browser raises, the
    handler catches the exception and [execute_commands] returns
    [(False, transcription)] with the text unmodified, so the
    transcription goes on.  [execute_commands] has no guard of its own:
    an exception that leaves a matched handler leaves
    [execute_commands] too. *)
Theorem C6_handler_failure (env : environment) (handlers : registry) (t : string)
  (tr : trace) :
  (forall e,
     Str.contains "wiz open edge" (sanitize_text t) = true ->
     env_Popen env (tr ++ [Invoked "wiz open edge"])%list "start /WAIT microsoft-edge:"
       = Some e ->
     execute_commands (COMMAND_HANDLERS env) t tr
     = (Returns (false, t),
        (tr ++ [Invoked "wiz open edge"] ++ [Popen "start /WAIT microsoft-edge:"])%list)) /\
  (forall p h e tr',
     find (phrase_in (sanitize_text t)) handlers = Some (p, h) ->
     h t (tr ++ [Invoked p])%list = (Raises e, tr') ->
     execute_commands handlers t tr = (Raises e, tr')).
Proof.
  split.
  - intros e Hin Hpopen. unfold execute_commands. rewrite scan_commands_find.
    cbn [COMMAND_HANDLERS register_command find]. unfold phrase_in at 1. cbn [fst].
    rewrite Hin. unfold handle_open_edge, try_except, subprocess_Popen, call, emit.
    unfold bind. cbv beta iota. rewrite Hpopen. cbn. now rewrite <- app_assoc.
  - intros p h e tr' Hfind Hraise. unfold execute_commands.
    rewrite scan_commands_find, Hfind. unfold bind, emit. cbv beta iota.
    now rewrite Hraise.
Qed.

Lemma C6_witness :
  execute_commands (COMMAND_HANDLERS Sample.broken) "Wiz, open Edge. Thanks!" []
  = (Returns (false, "Wiz, open Edge. Thanks!"),
     [Invoked "wiz open edge"; Popen "start /WAIT microsoft-edge:"]) /\
  execute_commands [("stop", Sample.raising)] "Stop!" []
  = (Raises (Exception "handler failed"), [Invoked "stop"]).
Proof.
  destruct (C6_handler_failure Sample.broken [("stop", Sample.raising)]
              "Wiz, open Edge. Thanks!" []) as [Hown _].
  destruct (C6_handler_failure Sample.broken [("stop", Sample.raising)] "Stop!" [])
    as [_ Hescapes].
  split.
  - apply (Hown (Exception "cannot spawn")); reflexivity.
  - apply (Hescapes "stop" Sample.raising); reflexivity.
Defined.

(* ================================================================= *)
(** ** [transcribe] *)

(** The module's own registry only adds to the trace. *)
Lemma execute_commands_module_trace (env : environment) (t : string) (tr : trace) :
  exists new, snd (execute_commands (COMMAND_HANDLERS env) t tr) = (tr ++ new)%list.
Proof.
  unfold execute_commands. rewrite scan_commands_find.
  cbn [COMMAND_HANDLERS register_command find]. destruct (phrase_in _ _).
  - unfold handle_open_edge, try_except, subprocess_Popen, call, emit, ret, raised.
    unfold bind. cbv beta iota.
    destruct (env_Popen env _ _); cbn; rewrite <- app_assoc; eexists; reflexivity.
  - exists []. cbn. now rewrite app_nil_r.
Qed.

Lemma post_process_module_trace (env : environment) (cfg : config) (t : string) (tr : trace) :
  exists new,
    snd (post_process_transcription cfg (COMMAND_HANDLERS env) t tr) = (tr ++ new)%list.
Proof.
  unfold post_process_transcription, bind.
  destruct (execute_commands_module_trace env (Str.strip t) tr) as [new Hnew].
  destruct (execute_commands _ _ tr) as [[r|e] tr']; cbn in *; exists new; exact Hnew.
Qed.

Lemma bind_trace {A B} (m : M A) (k : A -> M B) (tr : trace) (c : effect) :
  snd (m tr) = (tr ++ [c])%list ->
  (forall a tr1, exists new, snd (k a tr1) = (tr1 ++ new)%list) ->
  exists rest, snd (bind m k tr) = (tr ++ c :: rest)%list.
Proof.
  intros Hm Hk. unfold bind. destruct (m tr) as [[a|e] tr1]; cbn in Hm; subst tr1.
  - destruct (Hk a (tr ++ [c])%list) as [new Hnew]. exists new.
    rewrite Hnew. now rewrite <- app_assoc.
  - exists []. reflexivity.
Qed.

(** [transcribe_api], step by step: the client, the WAV, the request. *)
Lemma transcribe_api_outcome (env : environment) (cfg : config) (audio : list Z)
  (tr : trace) :
  transcribe_api env cfg audio tr =
  match env_OpenAI env tr (api_key_of env) (base_url_of cfg) with
  | Some e => (Raises e, tr ++ [OpenAI (api_key_of env) (base_url_of cfg)])%list
  | None =>
      match env_sf_write env (tr ++ [OpenAI (api_key_of env) (base_url_of cfg)])%list
              audio (sample_rate_of cfg) with
      | Some e =>
          (Raises e,
           tr ++ [OpenAI (api_key_of env) (base_url_of cfg);
                  SfWrite audio (sample_rate_of cfg)])%list
      | None =>
          (env_api_transcribe env
             (tr ++ [OpenAI (api_key_of env) (base_url_of cfg);
                     SfWrite audio (sample_rate_of cfg)])%list
             (api_request_of cfg audio),
           tr ++ [OpenAI (api_key_of env) (base_url_of cfg);
                  SfWrite audio (sample_rate_of cfg);
                  ApiTranscribe (api_request_of cfg audio)])%list
      end
  end.
Proof.
  unfold transcribe_api, new_OpenAI, sf_write, api_transcriptions_create, call, raised.
  fold (api_key_of env). fold (base_url_of cfg). fold (sample_rate_of cfg).
  fold (api_request_of cfg audio). unfold bind. cbv beta iota.
  destruct (env_OpenAI env tr _ _); cbv beta iota; [reflexivity|].
  destruct (env_sf_write env _ _ _); cbv beta iota; rewrite <- !app_assoc; reflexivity.
Qed.

Lemma transcribe_local_outcome (env : environment) (cfg : config) (audio : list Z)
  (m : whisper_model) (tr : trace) :
  transcribe_local env cfg audio (Some m) tr =
  (match env_local_transcribe env tr (local_request_of cfg m audio) with
   | Returns segments => Returns (String.concat EmptyString segments)
   | Raises e => Raises e
   end,
   tr ++ [LocalTranscribe (local_request_of cfg m audio)])%list.
Proof.
  unfold transcribe_local, local_model_transcribe, call, ret.
  fold (local_request_of cfg m audio). unfold bind. cbv beta iota.
  destruct (env_local_transcribe env tr _); reflexivity.
Qed.

Lemma transcribe_local_trace (env : environment) (cfg : config) (audio : list Z)
  (m : whisper_model) (tr : trace) :
  exists r, snd (transcribe_local env cfg audio (Some m) tr) = (tr ++ [LocalTranscribe r])%list /\
            lr_model r = m /\ lr_audio r = List.map scale_sample audio.
Proof.
  eexists. split.
  - unfold transcribe_local, local_model_transcribe, bind, call, ret. cbn.
    destruct (env_local_transcribe env tr _); reflexivity.
  - split; reflexivity.
Qed.

(** C2, as stated, fails: a buffer with no samples is not [None]; it is
    handed to the backend, and the text that comes back (here with the
    trailing space of post-processing) need not be empty. *)
Lemma C2_counterexample :
  transcribe Sample.calm (Sample.options Sample.all_flags false)
    (COMMAND_HANDLERS Sample.calm) (Some []) (Some Sample.base_on_cpu) []
  = (Returns " ",
     [LocalTranscribe {| lr_model := Sample.base_on_cpu; lr_audio := [];
                         lr_language := None; lr_initial_prompt := None;
                         lr_condition_on_previous_text := true;
                         lr_temperature := Qmake 0 1; lr_vad_filter := false |}]) /\
  transcribe Sample.calm (Sample.options Sample.all_flags false)
    (COMMAND_HANDLERS Sample.calm) (Some []) (Some Sample.base_on_cpu) []
  <> (Returns EmptyString, []).
Proof. split; [reflexivity|discriminate]. Qed.

(** C2, amended.  The short-circuit is on an absent buffer: for
    [audio_data = None], [transcribe] returns the empty string and calls
    nothing.  A buffer that is present, even with no samples, is not
    short-circuited: with [use_api] off and a local model supplied the
    first thing [transcribe] does is to hand it to the local backend;
    with [use_api] on it is submitted to the API as soon as the client
    has been constructed and the WAV encoding written. *)
Theorem C2_absent_buffer (env : environment) (cfg : config) (handlers : registry)
  (local_model : option whisper_model) (tr : trace) :
  transcribe env cfg handlers None local_model tr = (Returns EmptyString, tr) /\
  (use_api (cfg_model_options cfg) = false ->
   forall audio m,
   exists rest,
     snd (transcribe env cfg (COMMAND_HANDLERS env) (Some audio) (Some m) tr)
     = (tr ++ LocalTranscribe (local_request_of cfg m audio) :: rest)%list) /\
  (use_api (cfg_model_options cfg) = true ->
   forall audio,
   env_OpenAI env tr (api_key_of env) (base_url_of cfg) = None ->
   env_sf_write env (tr ++ [OpenAI (api_key_of env) (base_url_of cfg)])%list
     audio (sample_rate_of cfg) = None ->
   exists rest,
     snd (transcribe env cfg (COMMAND_HANDLERS env) (Some audio) local_model tr)
     = (tr ++ [OpenAI (api_key_of env) (base_url_of cfg);
               SfWrite audio (sample_rate_of cfg);
               ApiTranscribe (api_request_of cfg audio)] ++ rest)%list).
Proof.
  split; [reflexivity|]. split.
  - intros Hsel audio m. unfold transcribe. rewrite Hsel. unfold bind.
    rewrite transcribe_local_outcome.
    destruct (env_local_transcribe env tr _) as [segments|e].
    + destruct (post_process_module_trace env cfg (String.concat EmptyString segments)
                  (tr ++ [LocalTranscribe (local_request_of cfg m audio)])%list)
        as [new Hnew].
      exists new. rewrite Hnew. now rewrite <- app_assoc.
    + exists []. reflexivity.
  - intros Hsel audio Hclient Hwav. unfold transcribe. rewrite Hsel. unfold bind.
    rewrite transcribe_api_outcome, Hclient, Hwav.
    destruct (env_api_transcribe env _ _) as [text|e].
    + match goal with
      | |- context [post_process_transcription cfg _ text ?tr0] =>
          destruct (post_process_module_trace env cfg text tr0) as [new Hnew]
      end.
      exists new. rewrite Hnew. now rewrite <- app_assoc.
    + exists []. cbn [snd]. now rewrite app_nil_r.
Qed.

Lemma C2_witness :
  (exists rest,
     snd (transcribe Sample.calm (Sample.options Sample.all_flags false)
            (COMMAND_HANDLERS Sample.calm) (Some []) (Some Sample.base_on_cpu) [])
     = LocalTranscribe
         (local_request_of (Sample.options Sample.all_flags false) Sample.base_on_cpu [])
       :: rest) /\
  (exists rest,
     snd (transcribe Sample.calm (Sample.options Sample.all_flags true)
            (COMMAND_HANDLERS Sample.calm) (Some []) None [])
     = [OpenAI (Some "sk-test") "https://api.openai.com/v1"; SfWrite [] 16000;
        ApiTranscribe (api_request_of (Sample.options Sample.all_flags true) [])]
       ++ rest)%list.
Proof.
  split.
  - destruct (C2_absent_buffer Sample.calm (Sample.options Sample.all_flags false)
                (COMMAND_HANDLERS Sample.calm) None []) as [_ [Hlocal _]].
    exact (Hlocal eq_refl [] Sample.base_on_cpu).
  - destruct (C2_absent_buffer Sample.calm (Sample.options Sample.all_flags true)
                (COMMAND_HANDLERS Sample.calm) None []) as [_ [_ Hapi]].
    exact (Hapi eq_refl [] eq_refl eq_refl).
Defined.

(** C8, as stated, fails: when the backend raises, [transcribe] raises;
    it delivers no string. *)
Lemma C8_counterexample :
  fst (transcribe Sample.broken (Sample.options Sample.no_flags false)
         (COMMAND_HANDLERS Sample.broken) (Some [0; 12; -7]%Z) (Some Sample.base_on_cpu) [])
  = Raises (Exception "inference failed") /\
  fst (transcribe Sample.broken (Sample.options Sample.no_flags true)
         (COMMAND_HANDLERS Sample.broken) (Some [0; 12; -7]%Z) None [])
  = Raises (Exception "connection refused") /\
  fst (transcribe Sample.broken (Sample.options Sample.no_flags false)
         (COMMAND_HANDLERS Sample.broken) (Some [0; 12; -7]%Z) (Some Sample.base_on_cpu) [])
  <> Returns EmptyString.
Proof. split; [reflexivity|]. split; [reflexivity|]. discriminate. Qed.

(** C8, amended.  [transcribe] has no handler for exceptions: when the
    selected backend raises, the exception leaves [transcribe] as it is,
    after the one backend call, and neither command detection nor
    post-processing runs.  Turning it into an empty result is left to
    the caller of [transcribe].  On the API path the same holds of an
    exception raised before the request, by the construction of the
    client or by the WAV encoding: it leaves [transcribe] too, and the
    request is not made. *)
Theorem C8_backend_exception_propagates (env : environment) (cfg : config)
  (handlers : registry) (audio : list Z) (tr : trace) (e : exn) :
  (use_api (cfg_model_options cfg) = true ->
   forall local_model,
     (env_OpenAI env tr (api_key_of env) (base_url_of cfg) = None ->
      env_sf_write env (tr ++ [OpenAI (api_key_of env) (base_url_of cfg)])%list
        audio (sample_rate_of cfg) = None ->
      env_api_transcribe env
        (tr ++ [OpenAI (api_key_of env) (base_url_of cfg);
                SfWrite audio (sample_rate_of cfg)])%list
        (api_request_of cfg audio) = Raises e ->
      transcribe env cfg handlers (Some audio) local_model tr
      = (Raises e,
         (tr ++ [OpenAI (api_key_of env) (base_url_of cfg);
                 SfWrite audio (sample_rate_of cfg);
                 ApiTranscribe (api_request_of cfg audio)])%list)) /\
     (env_OpenAI env tr (api_key_of env) (base_url_of cfg) = None ->
      env_sf_write env (tr ++ [OpenAI (api_key_of env) (base_url_of cfg)])%list
        audio (sample_rate_of cfg) = Some e ->
      transcribe env cfg handlers (Some audio) local_model tr
      = (Raises e,
         (tr ++ [OpenAI (api_key_of env) (base_url_of cfg);
                 SfWrite audio (sample_rate_of cfg)])%list)) /\
     (env_OpenAI env tr (api_key_of env) (base_url_of cfg) = Some e ->
      transcribe env cfg handlers (Some audio) local_model tr
      = (Raises e, (tr ++ [OpenAI (api_key_of env) (base_url_of cfg)])%list))) /\
  (use_api (cfg_model_options cfg) = false ->
   forall m,
     env_local_transcribe env tr (local_request_of cfg m audio) = Raises e ->
     transcribe env cfg handlers (Some audio) (Some m) tr
     = (Raises e, (tr ++ [LocalTranscribe (local_request_of cfg m audio)])%list)).
Proof.
  split; intros Hsel.
  - intros local_model. unfold transcribe. rewrite Hsel. unfold bind.
    rewrite transcribe_api_outcome. repeat split.
    + intros Hclient Hwav Hraise. now rewrite Hclient, Hwav, Hraise.
    + intros Hclient Hwav. now rewrite Hclient, Hwav.
    + intros Hclient. now rewrite Hclient.
  - intros m Hraise. unfold transcribe. rewrite Hsel. unfold bind.
    rewrite transcribe_local_outcome. now rewrite Hraise.
Qed.

Lemma C8_witness :
  transcribe Sample.broken (Sample.options Sample.all_flags true)
    (COMMAND_HANDLERS Sample.broken) (Some [1; 2]%Z) None []
  = (Raises (Exception "connection refused"),
     [OpenAI (Some "sk-test") "https://api.openai.com/v1"; SfWrite [1; 2]%Z 16000;
      ApiTranscribe (api_request_of (Sample.options Sample.all_flags true) [1; 2]%Z)]) /\
  transcribe Sample.no_key (Sample.options Sample.all_flags true)
    (COMMAND_HANDLERS Sample.no_key) (Some [1; 2]%Z) None []
  = (Raises (Exception "api_key must be set"),
     [OpenAI None "https://api.openai.com/v1"]) /\
  transcribe Sample.broken (Sample.options Sample.all_flags false)
    (COMMAND_HANDLERS Sample.broken) (Some [1; 2]%Z) (Some Sample.base_on_cpu) []
  = (Raises (Exception "inference failed"),
     [LocalTranscribe
        (local_request_of (Sample.options Sample.all_flags false) Sample.base_on_cpu
           [1; 2]%Z)]).
Proof.
  split; [|split].
  - destruct (C8_backend_exception_propagates Sample.broken
                (Sample.options Sample.all_flags true) (COMMAND_HANDLERS Sample.broken)
                [1; 2]%Z [] (Exception "connection refused")) as [Hapi _].
    destruct (Hapi eq_refl None) as [Hrequest _].
    exact (Hrequest eq_refl eq_refl eq_refl).
  - destruct (C8_backend_exception_propagates Sample.no_key
                (Sample.options Sample.all_flags true) (COMMAND_HANDLERS Sample.no_key)
                [1; 2]%Z [] (Exception "api_key must be set")) as [Hapi _].
    destruct (Hapi eq_refl None) as [_ [_ Hclient]].
    exact (Hclient eq_refl).
  - destruct (C8_backend_exception_propagates Sample.broken
                (Sample.options Sample.all_flags false) (COMMAND_HANDLERS Sample.broken)
                [1; 2]%Z [] (Exception "inference failed")) as [_ Hlocal].
    exact (Hlocal eq_refl Sample.base_on_cpu eq_refl).
Defined.

(* ================================================================= *)
(** ** [post_process_transcription] *)

Lemma rstrip_idempotent (s : string) : Str.rstrip (Str.rstrip s) = Str.rstrip s.
Proof.
  induction s as [|c s IH]; [reflexivity|]. cbn [Str.rstrip].
  destruct (Str.rstrip s) as [|d r] eqn:E.
  - destruct (Char.is_space c) eqn:Ec; [reflexivity|]. cbn. now rewrite Ec.
  - cbn [Str.rstrip] in IH |- *. now rewrite IH.
Qed.

Lemma lstrip_cases (s : string) :
  Str.lstrip s = EmptyString \/ starts_word (Str.lstrip s) = true.
Proof.
  induction s as [|c s IH]; [now left|]. cbn [Str.lstrip].
  destruct (Char.is_space c) eqn:Ec; [exact IH|]. right. cbn. now rewrite Ec.
Qed.

Lemma lstrip_starts_word (s : string) : starts_word s = true -> Str.lstrip s = s.
Proof.
  destruct s as [|c s]; [reflexivity|]. cbn. now destruct (Char.is_space c).
Qed.

Lemma rstrip_starts_word (s : string) :
  starts_word s = true -> starts_word (Str.rstrip s) = true.
Proof.
  destruct s as [|c s]; [discriminate|]. cbn [starts_word Str.rstrip]. intros Hc.
  destruct (Str.rstrip s); [|exact Hc].
  apply negb_true_iff in Hc. rewrite Hc. cbn. now rewrite Hc.
Qed.

Lemma strip_idempotent (s : string) : Str.strip (Str.strip s) = Str.strip s.
Proof.
  unfold Str.strip. destruct (lstrip_cases s) as [E|E].
  - rewrite E. reflexivity.
  - rewrite (lstrip_starts_word _ (rstrip_starts_word _ E)). apply rstrip_idempotent.
Qed.

(** What the module's own registry returns: the text it was given, or
    a stripped text. *)
Lemma execute_commands_module_cases (env : environment) (t : string) (tr : trace) :
  exists b t' tr',
    execute_commands (COMMAND_HANDLERS env) t tr = (Returns (b, t'), tr') /\
    (t' = t \/ exists u, t' = Str.strip u).
Proof.
  unfold execute_commands. rewrite scan_commands_find.
  cbn [COMMAND_HANDLERS register_command find]. destruct (phrase_in _ _).
  - unfold handle_open_edge, try_except, subprocess_Popen, call, emit, ret, raised.
    unfold bind. cbv beta iota.
    destruct (env_Popen env _ _); cbv beta iota.
    + eexists _, _, _. split; [reflexivity|now left].
    + eexists _, _, _. split; [reflexivity|right; eexists; reflexivity].
  - eexists _, _, _. split; [reflexivity|now left].
Qed.

(** C3, as stated, fails: the text that reaches the flag steps is not
    the trimmed input but what command detection made of it. *)
Lemma C3_counterexample :
  fst (post_process_transcription (Sample.options Sample.all_flags false)
         (COMMAND_HANDLERS Sample.calm) "Wiz open edge. Hello." [])
  = Returns ". hello " /\
  TextPostProcessor_apply Sample.all_flags "Wiz open edge. Hello."
  = "wiz open edge. hello " /\
  fst (post_process_transcription (Sample.options Sample.all_flags false)
         (COMMAND_HANDLERS Sample.calm) "Wiz open edge. Hello." [])
  <> Returns (TextPostProcessor_apply Sample.all_flags "Wiz open edge. Hello.").
Proof. split; [reflexivity|]. split; [reflexivity|]. discriminate. Qed.

(** C3, amended.  [post_process_transcription] trims the text, runs
    command detection on the trimmed text, and applies to the text that
    comes back the three flag steps in this order: trailing period,
    trailing space, lower case.  When no registered phrase occurs in the
    sanitized trimmed text, that is the four steps of the specification
    on the input itself.  With the module's own registry it is, in every
    case, the four steps applied to the outcome of command detection.
    With the three flags set, ["Hello."] becomes ["hello "]. *)
Theorem C3_post_processing_order (env : environment) (cfg : config)
  (handlers : registry) (t : string) (tr : trace) :
  post_process_transcription cfg handlers t tr
  = (r <- execute_commands handlers (Str.strip t) ;;
     ret (remove_capitalization_step (cfg_post_processing cfg)
            (add_trailing_space_step (cfg_post_processing cfg)
               (remove_trailing_period_step (cfg_post_processing cfg) (snd r))))) tr /\
  (forallb (fun entry => negb (phrase_in (sanitize_text (Str.strip t)) entry)) handlers
   = true ->
   post_process_transcription cfg handlers t tr
   = (Returns (TextPostProcessor_apply (cfg_post_processing cfg) t), tr)) /\
  (exists r tr',
     execute_commands (COMMAND_HANDLERS env) (Str.strip t) tr = (Returns r, tr') /\
     post_process_transcription cfg (COMMAND_HANDLERS env) t tr
     = (Returns (TextPostProcessor_apply (cfg_post_processing cfg) (snd r)), tr')) /\
  (cfg_post_processing cfg = Sample.all_flags ->
   post_process_transcription cfg (COMMAND_HANDLERS env) "Hello." tr
   = (Returns "hello ", tr)).
Proof.
  assert (Hsteps : forall hs,
    post_process_transcription cfg hs t tr
    = (r <- execute_commands hs (Str.strip t) ;;
       ret (flag_steps (cfg_post_processing cfg) (snd r))) tr) by reflexivity.
  split; [apply Hsteps|]. split; [|split].
  - intros Hnone. rewrite Hsteps. unfold bind.
    now rewrite (execute_commands_no_match handlers (Str.strip t) tr Hnone).
  - destruct (execute_commands_module_cases env (Str.strip t) tr)
      as [b [t' [tr' [Hexec Ht']]]].
    exists (b, t'), tr'. split; [exact Hexec|]. rewrite Hsteps. unfold bind.
    rewrite Hexec. unfold ret, TextPostProcessor_apply. cbn [snd].
    destruct Ht' as [-> | [u ->]]; now rewrite strip_idempotent.
  - intros Hflags. unfold post_process_transcription, bind.
    rewrite (execute_commands_no_match (COMMAND_HANDLERS env) (Str.strip "Hello.") tr eq_refl).
    rewrite Hflags. reflexivity.
Qed.

Lemma C3_witness :
  post_process_transcription (Sample.options Sample.all_flags false)
    (COMMAND_HANDLERS Sample.calm) "  Hello World.  " []
  = (Returns "hello world ", []) /\
  post_process_transcription (Sample.options Sample.all_flags false)
    (COMMAND_HANDLERS Sample.calm) "Hello." []
  = (Returns "hello ", []).
Proof.
  destruct (C3_post_processing_order Sample.calm (Sample.options Sample.all_flags false)
              (COMMAND_HANDLERS Sample.calm) "  Hello World.  " []) as [_ [Hnone _]].
  destruct (C3_post_processing_order Sample.calm (Sample.options Sample.all_flags false)
              (COMMAND_HANDLERS Sample.calm) "Hello." []) as [_ [_ [_ Hhello]]].
  split; [exact (Hnone eq_refl)|exact (Hhello eq_refl)].
Defined.

(* ================================================================= *)
(** * Further properties *)

(** ** [sanitize_text]: shape of the result, and what it ignores *)

Lemma split_nil_starts_word (s : string) :
  Str.split s = [] -> starts_word s = false.
Proof.
  destruct s as [|c s]; [reflexivity|]. rewrite split_cons. cbn [starts_word].
  destruct (Char.is_space c); [reflexivity|].
  destruct (starts_word s); [destruct (Str.split s)|]; discriminate.
Qed.

Lemma rstrip_head (s : string) (d : ascii) (r : string) :
  Str.rstrip s = String d r -> exists s', s = String d s'.
Proof.
  destruct s as [|c s]; [discriminate|]. cbn [Str.rstrip].
  destruct (Str.rstrip s); [destruct (Char.is_space c)|]; intros [= <- _];
    now exists s.
Qed.

Section SpacePreserving.

(** A character map that sends whitespace to whitespace. *)
Variable f : ascii -> ascii.
Hypothesis f_space : forall c, Char.is_space c = true -> Char.is_space (f c) = true.

Lemma split_map_lstrip (s : string) :
  Str.split (Str.map f (Str.lstrip s)) = Str.split (Str.map f s).
Proof.
  induction s as [|c s IH]; [reflexivity|]. cbn [Str.lstrip].
  destruct (Char.is_space c) eqn:Ec; [|reflexivity].
  rewrite IH. cbn [Str.map]. rewrite split_cons. now rewrite (f_space c Ec).
Qed.

Lemma split_map_rstrip (s : string) :
  Str.split (Str.map f (Str.rstrip s)) = Str.split (Str.map f s).
Proof.
  induction s as [|c s IH]; [reflexivity|]. cbn [Str.rstrip].
  destruct (Str.rstrip s) as [|d r] eqn:E.
  - cbn [Str.map Str.split] in IH. symmetry in IH.
    cbn [Str.map]. rewrite (split_cons (f c) (Str.map f s)), IH.
    rewrite (split_nil_starts_word _ IH).
    destruct (Char.is_space c) eqn:Ec.
    + now rewrite (f_space c Ec).
    + cbn. now destruct (Char.is_space (f c)).
  - destruct (rstrip_head s d r E) as [s' ->].
    cbn [Str.map] in IH |- *.
    rewrite (split_cons (f c) (String (f d) (Str.map f r))).
    rewrite (split_cons (f c) (String (f d) (Str.map f s'))).
    now rewrite IH.
Qed.

Lemma split_map_strip (s : string) :
  Str.split (Str.map f (Str.strip s)) = Str.split (Str.map f s).
Proof. unfold Str.strip. now rewrite split_map_rstrip, split_map_lstrip. Qed.

End SpacePreserving.

Lemma map_ext (f g : ascii -> ascii) (s : string) :
  (forall c, f c = g c) -> Str.map f s = Str.map g s.
Proof. intros H. induction s as [|c s IH]; cbn; [reflexivity|]. now rewrite H, IH. Qed.

Lemma map_map (f g : ascii -> ascii) (s : string) :
  Str.map f (Str.map g s) = Str.map (fun c => f (g c)) s.
Proof. induction s as [|c s IH]; cbn; [reflexivity|]. now rewrite IH. Qed.

Lemma clean_char_keeps_space (c : ascii) :
  Char.is_space c = true -> Char.is_space (clean_char c) = true.
Proof. each_char c. Qed.

Lemma clean_char_lower (c : ascii) : clean_char (Char.lower c) = clean_char c.
Proof. each_char c. Qed.

Lemma clean_char_sub (c : ascii) :
  clean_char (if Char.is_word c || Char.is_space c then c else " "%char) = clean_char c.
Proof. each_char c. Qed.

Lemma sanitize_text_strip (t : string) : sanitize_text (Str.strip t) = sanitize_text t.
Proof.
  rewrite !sanitize_text_unfold. f_equal.
  apply split_map_strip. exact clean_char_keeps_space.
Qed.

Lemma sanitize_text_lower (t : string) : sanitize_text (Str.lower t) = sanitize_text t.
Proof.
  rewrite !sanitize_text_unfold. unfold Str.lower. rewrite map_map.
  f_equal. f_equal. apply map_ext. exact clean_char_lower.
Qed.

(** Words joined by single spaces have no whitespace at either end. *)
Lemma rstrip_word (w : string) :
  word_of (fun c => negb (Char.is_space c)) w -> Str.rstrip w = w.
Proof.
  intros [Hne Hw]. induction w as [|c w IH]; [congruence|].
  cbn [Str.forallb] in Hw. apply andb_true_iff in Hw as [Hc Hw].
  apply negb_true_iff in Hc. cbn [Str.rstrip]. destruct w as [|c' w'].
  - cbn. now rewrite Hc.
  - rewrite IH; [reflexivity|discriminate|exact Hw].
Qed.

Lemma rstrip_app (s r : string) :
  r <> EmptyString -> Str.rstrip r = r -> Str.rstrip (s ++ r) = s ++ r.
Proof.
  intros Hne Hr. induction s as [|c s IH]; [exact Hr|].
  change (String c s ++ r) with (String c (s ++ r)). cbn [Str.rstrip]. rewrite IH.
  destruct (s ++ r) eqn:E; [|reflexivity].
  destruct s; cbn in E; [congruence|discriminate].
Qed.

Lemma rstrip_join (ws : list string) :
  Forall (word_of (fun c => negb (Char.is_space c))) ws ->
  Str.rstrip (Str.join " " ws) = Str.join " " ws.
Proof.
  unfold Str.join. induction 1 as [|w ws Hw Hws IH]; [reflexivity|].
  destruct ws as [|w' ws']; [now apply rstrip_word|].
  change (String.concat " " (w :: w' :: ws'))
    with (w ++ String " " (String.concat " " (w' :: ws'))).
  apply rstrip_app; [discriminate|]. cbn [Str.rstrip]. rewrite IH.
  destruct (String.concat " " (w' :: ws')) eqn:E; [|reflexivity].
  exfalso. inversion Hws as [|? ? [Hne _] _]; subst.
  cbn in E. destruct ws'; destruct w'; try congruence; discriminate.
Qed.

Lemma lstrip_join (ws : list string) :
  Forall (word_of (fun c => negb (Char.is_space c))) ws ->
  Str.lstrip (Str.join " " ws) = Str.join " " ws.
Proof.
  unfold Str.join. intros H. destruct H as [|w ws [Hne Hw] Hws]; [reflexivity|].
  destruct w as [|c w]; [congruence|]. cbn [Str.forallb] in Hw.
  apply andb_true_iff in Hw as [Hc _]. apply negb_true_iff in Hc.
  apply lstrip_starts_word. destruct ws; cbn; now rewrite Hc.
Qed.

Lemma sanitized_words_spacefree (text : string) :
  Forall (word_of (fun c => negb (Char.is_space c))) (sanitized_words text).
Proof.
  eapply Forall_impl; [|apply sanitized_words_settled]. intros w [Hne Hw].
  split; [exact Hne|]. eapply forallb_impl; [|exact Hw]. intros c Hc.
  now apply andb_true_iff in Hc as [_ Hc].
Qed.

Lemma settled_word_lower (c : ascii) :
  Ascii.eqb c " " || settled c = true ->
  Ascii.eqb c " " || (Char.is_word c && negb (Char.is_upper c)) = true.
Proof. each_char c. Qed.

(** X1.  [sanitize_text] is idempotent: sanitizing a sanitized text
    gives it back. *)
Theorem X1_sanitize_text_idempotent (text : string) :
  sanitize_text (sanitize_text text) = sanitize_text text.
Proof. apply sanitize_text_idempotent. Qed.

(** X2.  For a text over the code points U+0000 to U+00FF, the
    sanitized text is in normal form: it consists of lower-case word
    characters and spaces only, it has no whitespace at either end,
    and its words are separated by exactly one space, so that
    splitting it on whitespace and joining with one space gives it
    back.  (Beyond U+00FF [str.lower] leaves some upper-case letters
    as they are; strings here do not reach that far.) *)
Theorem X2_sanitize_text_normal_form (text : string) :
  Str.forallb (fun c => Ascii.eqb c " " || (Char.is_word c && negb (Char.is_upper c)))
    (sanitize_text text) = true /\
  Str.strip (sanitize_text text) = sanitize_text text /\
  Str.join " " (Str.split (sanitize_text text)) = sanitize_text text.
Proof.
  split; [|split].
  - eapply forallb_impl; [|apply sanitize_text_chars]. exact settled_word_lower.
  - rewrite sanitize_text_unfold. fold (sanitized_words text). unfold Str.strip.
    rewrite lstrip_join, rstrip_join; auto using sanitized_words_spacefree.
  - rewrite sanitize_text_unfold. fold (sanitized_words text).
    now rewrite split_join by apply sanitized_words_spacefree.
Qed.

(** X3.  On texts over the code points U+0000 to U+00FF,
    [sanitize_text] does not see case, surrounding whitespace, or
    which punctuation stands between the words: lower-casing the text,
    stripping it, or replacing every character that is neither a word
    character nor whitespace by a space leaves the sanitized text the
    same.  Command detection therefore selects the same entry for the
    stripped text as for the text itself.  (Beyond U+00FF [str.lower]
    depends on the neighbouring characters, as for the capital sigma;
    strings here do not reach that far.) *)
Theorem X3_sanitize_text_invariance (text : string) (handlers : registry) :
  sanitize_text (Str.lower text) = sanitize_text text /\
  sanitize_text (Str.strip text) = sanitize_text text /\
  sanitize_text (sub_nonword_nonspace text) = sanitize_text text /\
  find (phrase_in (sanitize_text (Str.strip text))) handlers
  = find (phrase_in (sanitize_text text)) handlers.
Proof.
  split; [apply sanitize_text_lower|]. split; [apply sanitize_text_strip|]. split.
  - rewrite !sanitize_text_unfold. unfold sub_nonword_nonspace. rewrite map_map.
    f_equal. f_equal. apply map_ext. exact clean_char_sub.
  - now rewrite sanitize_text_strip.
Qed.

(* ================================================================= *)
(** ** [register_command] *)

Lemma registry_get_register (p q : string) (f : handler) (handlers : registry) :
  registry_get q (register_command p f handlers)
  = if String.eqb q p then Some f else registry_get q handlers.
Proof.
  induction handlers as [|[p0 h0] rest IH]; cbn.
  - rewrite (String.eqb_sym p q). reflexivity.
  - destruct (String.eqb_spec p0 p) as [->|Hp0]; cbn.
    + rewrite (String.eqb_sym q p). now destruct (String.eqb p q).
    + rewrite IH. destruct (String.eqb_spec p0 q) as [->|Hq]; [|reflexivity].
      destruct (String.eqb_spec q p); [congruence|reflexivity].
Qed.

Lemma register_command_keys (p : string) (f : handler) (handlers : registry) :
  List.map fst (register_command p f handlers)
  = if existsb (String.eqb p) (List.map fst handlers)
    then List.map fst handlers
    else (List.map fst handlers ++ [p])%list.
Proof.
  induction handlers as [|[p0 h0] rest IH]; [reflexivity|]. cbn.
  rewrite (String.eqb_sym p p0). destruct (String.eqb p0 p); cbn; [reflexivity|].
  rewrite IH. now destruct (existsb _ _).
Qed.

Lemma register_command_nodup (p : string) (f : handler) (handlers : registry) :
  NoDup (List.map fst handlers) -> NoDup (List.map fst (register_command p f handlers)).
Proof.
  intros H. rewrite register_command_keys.
  destruct (existsb _ _) eqn:E; [exact H|].
  apply NoDup_app; [exact H|repeat constructor; intros []|].
  intros k Hk [Hpk|[]]. subst k.
  assert (Hex : existsb (String.eqb p) (List.map fst handlers) = true).
  { apply existsb_exists. exists p. split; [exact Hk|apply String.eqb_refl]. }
  congruence.
Qed.

Lemma registered_nodup (decorations : list (string * handler)) :
  NoDup (List.map fst (registered decorations)).
Proof.
  unfold registered.
  assert (H : forall handlers, NoDup (List.map fst handlers) ->
    NoDup (List.map fst
      (fold_left (fun hs d => register_command (fst d) (snd d) hs) decorations handlers))).
  { induction decorations as [|d ds IH]; intros hs Hhs; [exact Hhs|].
    cbn. apply IH. now apply register_command_nodup. }
  apply H. constructor.
Qed.

(** X4.  The registry behaves as a dictionary under [register_command]:
    looking a phrase up afterwards gives the handler just registered,
    every other phrase keeps its handler; a phrase that was already
    registered keeps its place in the iteration order, a new one goes
    last; and however many commands are registered, in whatever order
    and with whatever repetitions, every phrase occurs once, and the
    handler found for the phrase registered last is that handler. *)
Theorem X4_register_command_dict (p : string) (f : handler) (handlers : registry)
  (decorations : list (string * handler)) :
  (forall q, registry_get q (register_command p f handlers)
             = if String.eqb q p then Some f else registry_get q handlers) /\
  List.map fst (register_command p f handlers)
  = (if existsb (String.eqb p) (List.map fst handlers)
     then List.map fst handlers
     else (List.map fst handlers ++ [p])%list) /\
  NoDup (List.map fst (registered decorations)) /\
  registry_get p (registered (decorations ++ [(p, f)])%list) = Some f.
Proof.
  split; [intros q; apply registry_get_register|].
  split; [apply register_command_keys|]. split; [apply registered_nodup|].
  unfold registered. rewrite fold_left_app. cbn.
  rewrite registry_get_register. now rewrite String.eqb_refl.
Qed.

(* ================================================================= *)
(** ** [create_local_model], [transcribe_api] *)

Lemma first_attempt_branches (o : local_options) :
  (if truthy (model_path o)
   then {| wm_model := or_else (model_path o) EmptyString;
           wm_device := if String.eqb (compute_type o) "int8" then "cpu" else device o;
           wm_compute_type := compute_type o |}
   else {| wm_model := model o;
           wm_device := if String.eqb (compute_type o) "int8" then "cpu" else device o;
           wm_compute_type := compute_type o |})
  = first_attempt o.
Proof.
  unfold first_attempt, model_identifier.
  destruct (model_path o) as [[|c s]|]; reflexivity.
Qed.

Lemma create_local_model_outcome (env : environment) (cfg : config) (tr : trace) :
  create_local_model env cfg tr =
  let o := local (cfg_model_options cfg) in
  match env_WhisperModel env tr (first_attempt o) with
  | None => (Returns (first_attempt o), tr ++ [WhisperModel (first_attempt o)])%list
  | Some _ =>
      match env_WhisperModel env (tr ++ [WhisperModel (first_attempt o)])%list
              (cpu_fallback o) with
      | None =>
          (Returns (cpu_fallback o),
           tr ++ [WhisperModel (first_attempt o); WhisperModel (cpu_fallback o)])%list
      | Some e =>
          (Raises e,
           tr ++ [WhisperModel (first_attempt o); WhisperModel (cpu_fallback o)])%list
      end
  end.
Proof.
  cbv zeta. unfold create_local_model. set (o := local (cfg_model_options cfg)).
  cbv zeta.
  replace (if truthy (model_path o) then new_WhisperModel env _ else new_WhisperModel env _)
    with (new_WhisperModel env (first_attempt o)).
  2:{ rewrite <- first_attempt_branches. now destruct (truthy (model_path o)). }
  unfold try_except, new_WhisperModel, call, ret, raised. unfold bind. cbv beta iota.
  fold (model_identifier o). fold (cpu_fallback o).
  destruct (env_WhisperModel env tr (first_attempt o)); cbv beta iota; [|reflexivity].
  destruct (env_WhisperModel env _ (cpu_fallback o)); cbv beta iota;
    now rewrite <- app_assoc.
Qed.

(** X5.  [create_local_model] makes one attempt with the configured
    device (the CPU for int8) and, only if that raises, one second
    attempt on the CPU with the same model identifier ([model_path] if
    it is set and not empty, else [model]) and the same compute type.
    The exception of the first attempt is swallowed; the function
    raises only when the fallback raises, with the fallback's
    exception.  It never constructs more than two models. *)
Theorem X5_create_local_model_fallback (env : environment) (cfg : config) (tr : trace) :
  create_local_model env cfg tr =
  match env_WhisperModel env tr (first_attempt (local (cfg_model_options cfg))) with
  | None =>
      (Returns (first_attempt (local (cfg_model_options cfg))),
       tr ++ [WhisperModel (first_attempt (local (cfg_model_options cfg)))])%list
  | Some _ =>
      match env_WhisperModel env
              (tr ++ [WhisperModel (first_attempt (local (cfg_model_options cfg)))])%list
              (cpu_fallback (local (cfg_model_options cfg))) with
      | None =>
          (Returns (cpu_fallback (local (cfg_model_options cfg))),
           tr ++ [WhisperModel (first_attempt (local (cfg_model_options cfg)));
                  WhisperModel (cpu_fallback (local (cfg_model_options cfg)))])%list
      | Some e =>
          (Raises e,
           tr ++ [WhisperModel (first_attempt (local (cfg_model_options cfg)));
                  WhisperModel (cpu_fallback (local (cfg_model_options cfg)))])%list
      end
  end /\
  wm_model (cpu_fallback (local (cfg_model_options cfg)))
  = wm_model (first_attempt (local (cfg_model_options cfg))) /\
  wm_compute_type (cpu_fallback (local (cfg_model_options cfg)))
  = wm_compute_type (first_attempt (local (cfg_model_options cfg))).
Proof. split; [apply create_local_model_outcome|split; reflexivity]. Qed.

(** X6.  [transcribe_api] constructs the client, writes the WAV and
    submits one request, in this order, and returns or raises what the
    request does.  An exception from the construction of the client
    (no API key, say) or from the WAV encoding (a sample rate the
    format cannot hold) leaves the function before any request is
    made.  The samples are written and submitted as they are (no
    rescaling); the sample rate is never 0 and the base URL never
    empty: a missing or zero [sample_rate] becomes 16000, a missing or
    empty [base_url] the OpenAI endpoint; an empty API key is passed
    as [None]. *)
Theorem X6_transcribe_api_request (env : environment) (cfg : config) (audio : list Z)
  (tr : trace) :
  transcribe_api env cfg audio tr =
  match env_OpenAI env tr (api_key_of env) (base_url_of cfg) with
  | Some e => (Raises e, tr ++ [OpenAI (api_key_of env) (base_url_of cfg)])%list
  | None =>
      match env_sf_write env (tr ++ [OpenAI (api_key_of env) (base_url_of cfg)])%list
              audio (sample_rate_of cfg) with
      | Some e =>
          (Raises e,
           tr ++ [OpenAI (api_key_of env) (base_url_of cfg);
                  SfWrite audio (sample_rate_of cfg)])%list
      | None =>
          (env_api_transcribe env
             (tr ++ [OpenAI (api_key_of env) (base_url_of cfg);
                     SfWrite audio (sample_rate_of cfg)])%list
             (api_request_of cfg audio),
           tr ++ [OpenAI (api_key_of env) (base_url_of cfg);
                  SfWrite audio (sample_rate_of cfg);
                  ApiTranscribe (api_request_of cfg audio)])%list
      end
  end /\
  ar_wav_samples (api_request_of cfg audio) = audio /\
  ar_wav_rate (api_request_of cfg audio) = sample_rate_of cfg /\
  sample_rate_of cfg <> 0%Z /\
  (sample_rate_of cfg = 16000%Z \/ cfg_sample_rate cfg = Some (sample_rate_of cfg)) /\
  base_url_of cfg <> EmptyString /\
  (base_url_of cfg = "https://api.openai.com/v1"
   \/ base_url (api (cfg_model_options cfg)) = Some (base_url_of cfg)) /\
  api_key_of env <> Some EmptyString.
Proof.
  split; [apply transcribe_api_outcome|]. split; [reflexivity|]. split; [reflexivity|].
  unfold sample_rate_of, base_url_of, api_key_of. repeat split.
  - destruct (cfg_sample_rate cfg) as [r|]; [|discriminate].
    destruct (Z.eqb_spec r 0); [discriminate|assumption].
  - destruct (cfg_sample_rate cfg) as [r|]; [|now left].
    destruct (Z.eqb_spec r 0); [now left|now right].
  - destruct (base_url (api (cfg_model_options cfg))) as [[|c s]|]; discriminate.
  - destruct (base_url (api (cfg_model_options cfg))) as [[|c s]|];
      [now left|now right|now left].
  - destruct (env_OPENAI_API_KEY env) as [[|c s]|]; discriminate.
Qed.

(* ================================================================= *)
(** ** The module's own registry *)

Lemma length_lstrip (s : string) : String.length (Str.lstrip s) <= String.length s.
Proof.
  induction s as [|c s IH]; cbn; [lia|]. destruct (Char.is_space c); cbn; lia.
Qed.

Lemma length_rstrip (s : string) : String.length (Str.rstrip s) <= String.length s.
Proof.
  induction s as [|c s IH]; cbn; [lia|].
  destruct (Str.rstrip s); [destruct (Char.is_space c)|]; cbn in *; lia.
Qed.

Lemma length_strip (s : string) : String.length (Str.strip s) <= String.length s.
Proof.
  unfold Str.strip. pose proof (length_rstrip (Str.lstrip s)).
  pose proof (length_lstrip s). lia.
Qed.

Lemma length_sub_empty_from (pat : list Re.atom) (s : string) : forall skip,
  String.length (Re.sub_empty_from pat skip s) <= String.length s.
Proof.
  induction s as [|c s IH]; intros skip; [cbn; lia|].
  cbn [Re.sub_empty_from]. destruct skip as [|k].
  - destruct (Re.match_here pat (String c s)) as [[|n]|]; cbn [String.length].
    + specialize (IH 0). lia.
    + specialize (IH n). lia.
    + specialize (IH 0). lia.
  - specialize (IH k). cbn [String.length]. lia.
Qed.

Lemma execute_commands_module_outcome (env : environment) (t : string) (tr : trace) :
  execute_commands (COMMAND_HANDLERS env) t tr =
  if Str.contains "wiz open edge" (sanitize_text t)
  then match env_Popen env (tr ++ [Invoked "wiz open edge"])%list open_edge_command with
       | None =>
           (Returns (true, Str.strip (Re.sub_empty Re.wiz_open_edge t)),
            tr ++ [Invoked "wiz open edge"; Popen open_edge_command])%list
       | Some _ =>
           (Returns (false, t),
            tr ++ [Invoked "wiz open edge"; Popen open_edge_command])%list
       end
  else (Returns (false, t), tr).
Proof.
  unfold execute_commands. rewrite scan_commands_find.
  cbn [COMMAND_HANDLERS register_command find]. unfold phrase_in at 1. cbn [fst].
  destruct (Str.contains _ _); [|reflexivity].
  unfold handle_open_edge, try_except, subprocess_Popen, call, emit, ret, raised.
  unfold bind. cbv beta iota. fold open_edge_command.
  destruct (env_Popen env _ _); cbv beta iota; now rewrite <- app_assoc.
Qed.

(** X7.  With the registry the module defines, [execute_commands] never
    raises, whatever [Popen] does.  It reports [executed = True]
    exactly when the phrase occurs in the sanitized text and the launch
    did not raise; then the text is the stripped remainder after the
    pattern's matches are deleted, otherwise it is the text given.  The
    text returned is never longer than the text given, and the browser
    is launched at most once, and only when the phrase occurs. *)
Theorem X7_execute_commands_open_edge (env : environment) (t : string) (tr : trace) :
  exists b t' tr',
    execute_commands (COMMAND_HANDLERS env) t tr = (Returns (b, t'), tr') /\
    (b = true <->
     Str.contains "wiz open edge" (sanitize_text t) = true /\
     env_Popen env (tr ++ [Invoked "wiz open edge"])%list open_edge_command = None) /\
    t' = (if b then Str.strip (Re.sub_empty Re.wiz_open_edge t) else t) /\
    String.length t' <= String.length t /\
    tr' = (if Str.contains "wiz open edge" (sanitize_text t)
           then tr ++ [Invoked "wiz open edge"; Popen open_edge_command]
           else tr)%list.
Proof.
  rewrite execute_commands_module_outcome.
  destruct (Str.contains _ _).
  - destruct (env_Popen env _ _) as [e|]; eexists _, _, _; (split; [reflexivity|]).
    + split; [split; [discriminate|intros [_ H]; discriminate H]|].
      split; [reflexivity|]. split; [apply Nat.le_refl|reflexivity].
    + split; [split; [now split|reflexivity]|]. split; [reflexivity|].
      split; [|reflexivity].
      eapply Nat.le_trans; [apply length_strip|apply length_sub_empty_from].
  - eexists _, _, _. split; [reflexivity|].
    split; [split; [discriminate|intros [H _]; discriminate H]|].
    split; [reflexivity|]. split; [apply Nat.le_refl|reflexivity].
Qed.

(* ================================================================= *)
(** ** [transcribe]: what it calls *)

Lemma post_process_module_footprint (env : environment) (cfg : config) (t : string)
  (tr : trace) :
  snd (post_process_transcription cfg (COMMAND_HANDLERS env) t tr) = tr \/
  snd (post_process_transcription cfg (COMMAND_HANDLERS env) t tr)
  = (tr ++ [Invoked "wiz open edge"; Popen open_edge_command])%list.
Proof.
  unfold post_process_transcription, bind.
  rewrite execute_commands_module_outcome.
  destruct (Str.contains _ _); [|now left].
  destruct (env_Popen env _ _); now right.
Qed.

Lemma commands_after (env : environment) (cfg : config) (backend : M string)
  (calls : trace) (tr : trace) :
  snd (backend tr) = (tr ++ calls)%list ->
  snd (bind backend (post_process_transcription cfg (COMMAND_HANDLERS env)) tr)
  = (tr ++ calls)%list \/
  snd (bind backend (post_process_transcription cfg (COMMAND_HANDLERS env)) tr)
  = (tr ++ calls ++ [Invoked "wiz open edge"; Popen open_edge_command])%list.
Proof.
  intros Hc. unfold bind.
  destruct (backend tr) as [[text|e] tr1]; cbn [snd] in Hc; subst tr1; [|now left].
  destruct (post_process_module_footprint env cfg text (tr ++ calls)%list) as [H|H];
    rewrite H; [now left|right; now rewrite <- app_assoc].
Qed.

(** The calls of the API path: the client; then the WAV; then the
    request. *)
Lemma transcribe_api_calls (env : environment) (cfg : config) (audio : list Z)
  (tr : trace) :
  exists calls,
    snd (transcribe_api env cfg audio tr) = (tr ++ calls)%list /\
    (calls = [OpenAI (api_key_of env) (base_url_of cfg)] \/
     calls = [OpenAI (api_key_of env) (base_url_of cfg);
              SfWrite audio (sample_rate_of cfg)] \/
     calls = [OpenAI (api_key_of env) (base_url_of cfg);
              SfWrite audio (sample_rate_of cfg);
              ApiTranscribe (api_request_of cfg audio)]).
Proof.
  rewrite transcribe_api_outcome.
  destruct (env_OpenAI env tr _ _); [eexists; split; [reflexivity|now left]|].
  destruct (env_sf_write env _ _ _); eexists; (split; [reflexivity|]); auto.
Qed.

Lemma transcribe_footprint_local (env : environment) (cfg : config) (audio : list Z)
  (m : whisper_model) (tr : trace) :
  use_api (cfg_model_options cfg) = false ->
  snd (transcribe env cfg (COMMAND_HANDLERS env) (Some audio) (Some m) tr)
  = (tr ++ [LocalTranscribe (local_request_of cfg m audio)])%list \/
  snd (transcribe env cfg (COMMAND_HANDLERS env) (Some audio) (Some m) tr)
  = (tr ++ [LocalTranscribe (local_request_of cfg m audio)]
        ++ [Invoked "wiz open edge"; Popen open_edge_command])%list.
Proof.
  intros Hsel. unfold transcribe. rewrite Hsel. apply commands_after.
  now rewrite transcribe_local_outcome.
Qed.

Lemma transcribe_footprint_api (env : environment) (cfg : config) (audio : list Z)
  (local_model : option whisper_model) (tr : trace) :
  use_api (cfg_model_options cfg) = true ->
  exists calls,
    (calls = [OpenAI (api_key_of env) (base_url_of cfg)] \/
     calls = [OpenAI (api_key_of env) (base_url_of cfg);
              SfWrite audio (sample_rate_of cfg)] \/
     calls = [OpenAI (api_key_of env) (base_url_of cfg);
              SfWrite audio (sample_rate_of cfg);
              ApiTranscribe (api_request_of cfg audio)]) /\
    (snd (transcribe env cfg (COMMAND_HANDLERS env) (Some audio) local_model tr)
     = (tr ++ calls)%list \/
     snd (transcribe env cfg (COMMAND_HANDLERS env) (Some audio) local_model tr)
     = (tr ++ calls ++ [Invoked "wiz open edge"; Popen open_edge_command])%list).
Proof.
  intros Hsel. unfold transcribe. rewrite Hsel.
  destruct (transcribe_api_calls env cfg audio tr) as [calls [Htr Hcalls]].
  exists calls. split; [exact Hcalls|]. now apply commands_after.
Qed.

(** X8.  One transcription never calls both backends, and never one of
    them twice.  With [use_api] off and a local model passed in, it
    calls that model exactly once and makes no API call.  With
    [use_api] on, whatever local model is passed in, it calls no local
    model: it constructs the client, writes the WAV and makes the one
    request, stopping where one of these raises.  No model is
    constructed in either case.  After the backend calls the only
    thing that can follow is one run of the open-edge command (its
    handler, and one [Popen]). *)
Theorem X8_transcribe_footprint (env : environment) (cfg : config) (audio : list Z)
  (m : whisper_model) (local_model : option whisper_model) (tr : trace) :
  (use_api (cfg_model_options cfg) = false ->
   snd (transcribe env cfg (COMMAND_HANDLERS env) (Some audio) (Some m) tr)
   = (tr ++ [LocalTranscribe (local_request_of cfg m audio)])%list \/
   snd (transcribe env cfg (COMMAND_HANDLERS env) (Some audio) (Some m) tr)
   = (tr ++ [LocalTranscribe (local_request_of cfg m audio)]
         ++ [Invoked "wiz open edge"; Popen open_edge_command])%list) /\
  (use_api (cfg_model_options cfg) = true ->
   exists calls,
     (calls = [OpenAI (api_key_of env) (base_url_of cfg)] \/
      calls = [OpenAI (api_key_of env) (base_url_of cfg);
               SfWrite audio (sample_rate_of cfg)] \/
      calls = [OpenAI (api_key_of env) (base_url_of cfg);
               SfWrite audio (sample_rate_of cfg);
               ApiTranscribe (api_request_of cfg audio)]) /\
     (snd (transcribe env cfg (COMMAND_HANDLERS env) (Some audio) local_model tr)
      = (tr ++ calls)%list \/
      snd (transcribe env cfg (COMMAND_HANDLERS env) (Some audio) local_model tr)
      = (tr ++ calls ++ [Invoked "wiz open edge"; Popen open_edge_command])%list)).
Proof.
  split; [apply transcribe_footprint_local|apply transcribe_footprint_api].
Qed.

Lemma X8_witness :
  snd (transcribe Sample.no_key (Sample.options Sample.all_flags true)
         (COMMAND_HANDLERS Sample.no_key) (Some [5; 6]%Z) (Some Sample.base_on_cpu) [])
  = [OpenAI None "https://api.openai.com/v1"] /\
  snd (transcribe Sample.calm (Sample.options Sample.all_flags false)
         (COMMAND_HANDLERS Sample.calm) (Some [5; 6]%Z) (Some Sample.base_on_cpu) [])
  = [LocalTranscribe
       (local_request_of (Sample.options Sample.all_flags false) Sample.base_on_cpu
          [5; 6]%Z)].
Proof.
  split.
  - destruct (X8_transcribe_footprint Sample.no_key (Sample.options Sample.all_flags true)
                [5; 6]%Z Sample.base_on_cpu (Some Sample.base_on_cpu) []) as [_ Hapi].
    destruct (Hapi eq_refl) as [calls [_ _]]. reflexivity.
  - destruct (X8_transcribe_footprint Sample.calm (Sample.options Sample.all_flags false)
                [5; 6]%Z Sample.base_on_cpu None []) as [Hlocal _].
    destruct (Hlocal eq_refl) as [H|H]; [exact H|discriminate H].
Defined.

(** X9.  Without a cached model, the local path builds one first.  When
    both attempts to build it raise, [transcribe] raises the exception
    of the second attempt and the backend is never called: the trace
    holds the two constructions and nothing else. *)
Theorem X9_model_creation_failure (env : environment) (cfg : config)
  (handlers : registry) (audio : list Z) (tr : trace) (e1 e2 : exn) :
  use_api (cfg_model_options cfg) = false ->
  env_WhisperModel env tr (first_attempt (local (cfg_model_options cfg))) = Some e1 ->
  env_WhisperModel env
    (tr ++ [WhisperModel (first_attempt (local (cfg_model_options cfg)))])%list
    (cpu_fallback (local (cfg_model_options cfg))) = Some e2 ->
  transcribe env cfg handlers (Some audio) None tr
  = (Raises e2,
     tr ++ [WhisperModel (first_attempt (local (cfg_model_options cfg)));
            WhisperModel (cpu_fallback (local (cfg_model_options cfg)))])%list.
Proof.
  intros Hsel H1 H2. unfold transcribe. rewrite Hsel. unfold transcribe_local.
  unfold bind at 1 2. rewrite create_local_model_outcome. cbv zeta.
  now rewrite H1, H2.
Qed.

Lemma X9_witness :
  transcribe Sample.broken (Sample.options Sample.no_flags false)
    (COMMAND_HANDLERS Sample.broken) (Some [3; 4]%Z) None []
  = (Raises (Exception "no device"),
     [WhisperModel Sample.base_on_cpu; WhisperModel Sample.base_on_cpu]).
Proof.
  exact (X9_model_creation_failure Sample.broken (Sample.options Sample.no_flags false)
           (COMMAND_HANDLERS Sample.broken) [3; 4]%Z []
           (Exception "no device") (Exception "no device") eq_refl eq_refl eq_refl).
Defined.

(* ================================================================= *)
(** ** [post_process_transcription]: the text it returns *)

Lemma drop_last_period (s : string) :
  Str.endswith_period s = true -> Str.drop_last s ++ "." = s.
Proof.
  induction s as [|c s IH]; [discriminate|]. destruct s as [|d s'].
  - cbn. intros H. apply Ascii.eqb_eq in H. now subst c.
  - intros H. change (Str.endswith_period (String c (String d s')))
      with (Str.endswith_period (String d s')) in H.
    change (Str.drop_last (String c (String d s')))
      with (String c (Str.drop_last (String d s'))).
    cbn [append]. now rewrite (IH H).
Qed.

Lemma lower_char_not_upper (c : ascii) : Char.is_upper (Char.lower c) = false.
Proof. each_char c. Qed.

Lemma lower_no_upper (s : string) :
  Str.forallb (fun c => negb (Char.is_upper c)) (Str.lower s) = true.
Proof.
  apply forallb_map. intros c. now rewrite lower_char_not_upper.
Qed.

(** X10.  With only [remove_trailing_period] set and no command in the
    text, the result is the stripped text without its last character
    when that is a period, and the stripped text otherwise: exactly one
    period is taken off, so a text ending in an ellipsis keeps two and
    still ends with a period. *)
Theorem X10_one_trailing_period (cfg : config) (handlers : registry) (t : string)
  (tr : trace) :
  remove_trailing_period (cfg_post_processing cfg) = true ->
  add_trailing_space (cfg_post_processing cfg) = false ->
  remove_capitalization (cfg_post_processing cfg) = false ->
  forallb (fun entry => negb (phrase_in (sanitize_text (Str.strip t)) entry)) handlers
  = true ->
  exists out,
    post_process_transcription cfg handlers t tr = (Returns out, tr) /\
    (if Str.endswith_period (Str.strip t)
     then out ++ "." = Str.strip t
     else out = Str.strip t).
Proof.
  intros Hperiod Hspace Hcap Hnone.
  unfold post_process_transcription, bind.
  rewrite (execute_commands_no_match handlers (Str.strip t) tr Hnone).
  cbn [snd]. rewrite Hperiod, Hspace, Hcap. cbn [andb]. eexists. split; [reflexivity|].
  destruct (Str.endswith_period (Str.strip t)) eqn:E; [|reflexivity].
  now apply drop_last_period.
Qed.

Lemma X10_witness :
  exists out,
    post_process_transcription
      (Sample.options {| remove_trailing_period := true; add_trailing_space := false;
                         remove_capitalization := false |} false)
      (COMMAND_HANDLERS Sample.calm) " Wait... " []
    = (Returns out, []) /\
    out ++ "." = "Wait...".
Proof.
  exact (X10_one_trailing_period
           (Sample.options {| remove_trailing_period := true; add_trailing_space := false;
                              remove_capitalization := false |} false)
           (COMMAND_HANDLERS Sample.calm) " Wait... " [] eq_refl eq_refl eq_refl eq_refl).
Defined.

(** X11.  For texts over the code points U+0000 to U+00FF (the
    transcription, and what the handlers return), whatever handlers
    are registered: when [post_process_transcription] returns a text,
    that text contains no upper-case letter if [remove_capitalization]
    is set, and ends with a space if [add_trailing_space] is set.  The
    flag steps come after command detection, so they also apply to
    what a handler made of the text.  (Beyond U+00FF [str.lower]
    leaves some upper-case letters as they are; strings here do not
    reach that far.) *)
Theorem X11_flags_have_the_last_word (cfg : config) (handlers : registry) (t : string)
  (tr tr' : trace) (out : string) :
  post_process_transcription cfg handlers t tr = (Returns out, tr') ->
  (if remove_capitalization (cfg_post_processing cfg)
   then Str.forallb (fun c => negb (Char.is_upper c)) out = true
   else True) /\
  (if add_trailing_space (cfg_post_processing cfg)
   then exists u, out = u ++ " "
   else True).
Proof.
  unfold post_process_transcription, bind, ret.
  destruct (execute_commands handlers (Str.strip t) tr) as [[r|e] tr1]; [|discriminate].
  intros [= <- _].
  set (u := if remove_trailing_period (cfg_post_processing cfg)
                && Str.endswith_period (snd r)
            then Str.drop_last (snd r) else snd r).
  destruct (remove_capitalization (cfg_post_processing cfg)),
           (add_trailing_space (cfg_post_processing cfg)); split; try exact I.
  - apply lower_no_upper.
  - exists (Str.lower u). unfold Str.lower. now rewrite map_append.
  - apply lower_no_upper.
  - now exists u.
Qed.

Lemma X11_witness :
  Str.forallb (fun c => negb (Char.is_upper c)) "wiz, open edge now " = true /\
  exists u, "wiz, open edge now " = u ++ " ".
Proof.
  exact (X11_flags_have_the_last_word (Sample.options Sample.all_flags false)
           (COMMAND_HANDLERS Sample.calm) "Wiz, open Edge NOW." []
           [Invoked "wiz open edge"; Popen open_edge_command] "wiz, open edge now "
           eq_refl).
Defined.

(* ================================================================= *)
(** ** The application: what its handlers keep *)

Module AppMore.
Import App.

Lemma run_snoc opts w events e :
  run opts w (events ++ [e])%list = step opts w (run opts w events) e.
Proof. unfold run. now rewrite fold_left_app. Qed.

Lemma length_update f l i : length (update i f l) = length l.
Proof.
  revert i. induction l as [|t l IH]; intros i; [reflexivity|].
  destruct i; cbn; [reflexivity|now rewrite IH].
Qed.

Lemma Forall_update (P : result_thread_obj -> Prop) f l i :
  (forall t, P t -> P (f t)) -> Forall P l -> Forall P (update i f l).
Proof.
  intros Hf H. revert i. induction H as [|t l Ht Hl IH]; intros i; [constructor|].
  destruct i; cbn; constructor; auto.
Qed.

Lemma filter_running_update f l i :
  (forall t, running (f t) = running t) ->
  length (filter running (update i f l)) = length (filter running l).
Proof.
  intros Hf. revert i. induction l as [|t l IH]; intros i; [reflexivity|].
  destruct i; cbn.
  - rewrite Hf. now destruct (running t).
  - destruct (running t); cbn; now rewrite IH.
Qed.

(** The fields other than [threads] under the thread requests. *)
Lemma on_result_thread_fields f s :
  result_thread (on_result_thread f s) = result_thread s /\
  typed (on_result_thread f s) = typed s /\
  key_listener_starts (on_result_thread f s) = key_listener_starts s /\
  length (threads (on_result_thread f s)) = length (threads s).
Proof.
  unfold on_result_thread. destruct (result_thread s) eqn:E; cbn;
    [rewrite length_update|]; auto.
Qed.

Lemma running_count_on_result_thread f s :
  (forall t, running (f t) = running t) ->
  running_count (on_result_thread f s) = running_count s.
Proof.
  intros Hf. unfold running_count, on_result_thread.
  destruct (result_thread s); [|reflexivity]. cbn.
  now apply filter_running_update.
Qed.

Lemma running_count_pos l i t :
  nth_error l i = Some t -> running t = true -> 1 <= length (filter running l).
Proof.
  revert i. induction l as [|t0 l IH]; intros i Hi Hrun; [destruct i; discriminate|].
  cbn. destruct i as [|i]; cbn in Hi.
  - injection Hi as ->. rewrite Hrun. cbn. lia.
  - specialize (IH i Hi Hrun). destruct (running t0); cbn; lia.
Qed.

Lemma running_count_one s :
  AppFacts.inv s -> result_thread_isRunning s = true -> running_count s = 1.
Proof.
  intros Hinv Hrun. pose proof (AppFacts.only_current_runs_count _ _ Hinv) as Hle.
  unfold result_thread_isRunning in Hrun. unfold running_count.
  destruct (result_thread s) as [i|]; [|discriminate].
  destruct (nth_error (threads s) i) as [t|] eqn:Hi; [|discriminate].
  pose proof (running_count_pos _ _ _ Hi Hrun). lia.
Qed.

Lemma running_count_started s :
  AppFacts.inv s -> running_count (start_result_thread s) = 1.
Proof.
  intros Hinv. unfold start_result_thread.
  destruct (result_thread_isRunning s) eqn:Hrun; [now apply running_count_one|].
  unfold running_count. cbn. rewrite filter_app, length_app. cbn.
  rewrite AppFacts.none_running_count; [reflexivity|].
  intros i t. now apply AppFacts.idle_all_stopped.
Qed.

Lemma running_count_stop_recording s : running_count (stop_recording s) = running_count s.
Proof. apply running_count_on_result_thread. now intros []. Qed.

(** After [stop()] on the one running thread: none is running if
    [stop()] waited for it, it is still running if not. *)
Lemma running_count_stop w s :
  AppFacts.inv s -> result_thread_isRunning s = true ->
  running_count (stop w s) = if w then 0 else 1.
Proof.
  intros Hinv Hrun. destruct w.
  - unfold result_thread_isRunning in Hrun. unfold running_count, stop, on_result_thread.
    destruct (result_thread s) as [i|] eqn:Hcur; [|discriminate]. cbn.
    apply AppFacts.none_running_count. intros j t' Hj.
    rewrite AppFacts.nth_error_update in Hj. destruct (Nat.eqb i j) eqn:E.
    + destruct (nth_error (threads s) j); [|discriminate]. now injection Hj as <-.
    + destruct (running t') eqn:R; [|reflexivity].
      pose proof (Hinv j t' Hj R) as Hc. rewrite Hcur in Hc. injection Hc as ->.
      now rewrite Nat.eqb_refl in E.
  - unfold stop. rewrite running_count_on_result_thread; [|now intros []].
    now apply running_count_one.
Qed.

End AppMore.

(** X12.  As long as the components are not initialised again: after an
    activation exactly one result thread is running, whatever happened
    before and whatever the recording mode (either one was running
    already, or one is started), with one exception: in continuous
    mode an activation stops the running thread, and if [stop()] waits
    for the thread none is running afterwards.  In continuous mode
    exactly one thread is running after every result signal. *)
Theorem X12_one_thread_after_activation (opts : App.options) (stop_waits : bool)
  (events : list App.event) (result : string) :
  no_reinitialisation events = true ->
  App.running_count (App.run opts stop_waits (events ++ [App.Activation])%list)
  = (if App.result_thread_isRunning (App.run opts stop_waits events)
        && String.eqb (App.recording_mode opts) "continuous"
        && stop_waits
     then 0 else 1) /\
  (if String.eqb (App.recording_mode opts) "continuous"
   then App.running_count
          (App.run opts stop_waits (events ++ [App.ResultSignal result])%list) = 1
   else True).
Proof.
  intros Hev. rewrite !AppMore.run_snoc.
  pose proof (AppFacts.inv_run opts stop_waits events Hev) as Hinv.
  set (s := App.run opts stop_waits events) in *. split.
  - cbn [App.step]. unfold App.on_activation.
    destruct (App.result_thread_isRunning s) eqn:Hrun; cbn [andb].
    + pose proof (AppMore.running_count_one s Hinv Hrun) as H1.
      destruct (String.eqb_spec (App.recording_mode opts) "press_to_toggle") as [Hm|Hm].
      * rewrite Hm. cbn. now rewrite AppMore.running_count_stop_recording.
      * destruct (String.eqb (App.recording_mode opts) "continuous"); cbn [andb].
        -- unfold App.stop_result_thread. rewrite Hrun.
           now apply AppMore.running_count_stop.
        -- exact H1.
    + now apply AppMore.running_count_started.
  - cbn [App.step]. unfold App.on_transcription_complete.
    destruct (String.eqb _ "continuous"); [|exact I].
    apply AppMore.running_count_started. exact Hinv.
Qed.

Lemma X12_witness :
  App.running_count
    (App.run {| App.recording_mode := "continuous"; App.noise_on_completion := false |}
       true ([App.Activation] ++ [App.Activation])%list) = 0 /\
  App.running_count
    (App.run {| App.recording_mode := "continuous"; App.noise_on_completion := false |}
       true ([App.Activation] ++ [App.ResultSignal "hello"])%list) = 1.
Proof.
  exact (X12_one_thread_after_activation
           {| App.recording_mode := "continuous"; App.noise_on_completion := false |}
           true [App.Activation] "hello" eq_refl).
Defined.

Module AppLog.
Import App.

Lemma start_result_thread_log s :
  typed (start_result_thread s) = typed s /\
  key_listener_starts (start_result_thread s) = key_listener_starts s.
Proof. unfold start_result_thread. now destruct (result_thread_isRunning s). Qed.

Lemma stop_result_thread_log w s :
  typed (stop_result_thread w s) = typed s /\
  key_listener_starts (stop_result_thread w s) = key_listener_starts s.
Proof.
  unfold stop_result_thread, stop. destruct (result_thread_isRunning s); [|auto].
  split; apply AppMore.on_result_thread_fields.
Qed.

Lemma stop_recording_log s :
  typed (stop_recording s) = typed s /\
  key_listener_starts (stop_recording s) = key_listener_starts s.
Proof. unfold stop_recording. split; apply AppMore.on_result_thread_fields. Qed.

(** One event: only a result signal types, and it types its result;
    the key listener is started after it unless the mode is
    continuous, and once by each re-initialisation. *)
Lemma step_log opts w s e :
  typed (step opts w s e) = (typed s ++ results_of [e])%list /\
  key_listener_starts (step opts w s e)
  = key_listener_starts s
    + (if String.eqb (recording_mode opts) "continuous" then 0
       else length (results_of [e]))
    + reinitialisations [e].
Proof.
  assert (Hsame : forall s', typed s' = typed s ->
            key_listener_starts s' = key_listener_starts s ->
            typed s' = (typed s ++ [])%list /\
            key_listener_starts s'
            = key_listener_starts s
              + (if String.eqb (recording_mode opts) "continuous" then 0 else 0) + 0).
  { intros s' Ht Hk. rewrite app_nil_r. split; [exact Ht|].
    destruct (String.eqb _ _); lia. }
  destruct e as [| |result| | |i|c ini]; cbn [step].
  - apply Hsame; unfold on_activation;
      destruct (result_thread_isRunning s);
      try destruct (String.eqb (recording_mode opts) "press_to_toggle");
      try destruct (String.eqb (recording_mode opts) "continuous");
      try reflexivity;
      first [ apply stop_recording_log | apply stop_result_thread_log
            | apply start_result_thread_log ].
  - apply Hsame; unfold on_deactivation;
      destruct (String.eqb (recording_mode opts) "hold_to_record");
      try destruct (result_thread_isRunning s); try reflexivity;
      apply stop_recording_log.
  - unfold on_transcription_complete, reinitialisations. cbn.
    destruct (String.eqb (recording_mode opts) "continuous").
    + match goal with |- context [start_result_thread ?s0] =>
        destruct (start_result_thread_log s0) as [-> ->] end.
      cbn. split; [reflexivity|lia].
    + cbn. split; [reflexivity|lia].
  - apply Hsame; apply stop_result_thread_log.
  - apply Hsame; apply start_result_thread_log.
  - apply Hsame; reflexivity.
  - destruct c, ini; try (apply Hsame; reflexivity).
    unfold reinitialisations. cbn. rewrite app_nil_r. split; [reflexivity|].
    destruct (String.eqb _ _); lia.
Qed.

Lemma results_of_cons e events :
  results_of (e :: events) = (results_of [e] ++ results_of events)%list.
Proof. unfold results_of. apply (flat_map_app _ [e] events). Qed.

Lemma reinitialisations_cons e events :
  reinitialisations (e :: events) = reinitialisations [e] + reinitialisations events.
Proof. unfold reinitialisations. cbn. destruct (is_reinitialisation e); reflexivity. Qed.

Lemma fold_log opts w events : forall s,
  typed (fold_left (step opts w) events s) = (typed s ++ results_of events)%list /\
  key_listener_starts (fold_left (step opts w) events s)
  = key_listener_starts s
    + (if String.eqb (recording_mode opts) "continuous" then 0
       else length (results_of events))
    + reinitialisations events.
Proof.
  induction events as [|e events IH]; intros s.
  - cbn. rewrite app_nil_r. split; [reflexivity|]. destruct (String.eqb _ _); cbn; lia.
  - cbn [fold_left]. destruct (IH (step opts w s e)) as [Ht Hk].
    destruct (step_log opts w s e) as [Ht1 Hk1]. rewrite Ht, Hk, Ht1, Hk1.
    rewrite (results_of_cons e events), (reinitialisations_cons e events).
    rewrite <- app_assoc. split; [reflexivity|].
    destruct (String.eqb _ _); [lia|]. rewrite length_app. lia.
Qed.

Lemma newest_weaken b c s : newest b s -> newest (b || c) s.
Proof.
  unfold newest. destruct (result_thread s); [auto|].
  intros [H|H]; [now left|right]. now rewrite H.
Qed.

Lemma newest_on_result_thread b f s : newest b s -> newest b (on_result_thread f s).
Proof.
  unfold newest. destruct (AppMore.on_result_thread_fields f s) as [-> [_ [_ Hlen]]].
  rewrite Hlen. destruct (result_thread s) eqn:E; [auto|].
  unfold on_result_thread. now rewrite E.
Qed.

Lemma newest_start_result_thread b s : newest b s -> newest b (start_result_thread s).
Proof.
  unfold start_result_thread. destruct (result_thread_isRunning s); [auto|].
  intros _. unfold newest. cbn. rewrite length_app. cbn. lia.
Qed.

Lemma newest_stop_result_thread b w s : newest b s -> newest b (stop_result_thread w s).
Proof.
  unfold stop_result_thread. destruct (result_thread_isRunning s); [|auto].
  apply newest_on_result_thread.
Qed.

Lemma newest_step opts w b s e :
  newest b s -> newest (b || is_reinitialisation e) (step opts w s e).
Proof.
  intros H. destruct e as [| |result| | |i|c ini]; cbn [step is_reinitialisation];
    rewrite ?orb_false_r.
  - unfold on_activation. destruct (result_thread_isRunning s);
      [destruct (String.eqb _ _); [|destruct (String.eqb _ _)]|];
      auto using newest_on_result_thread, newest_stop_result_thread,
        newest_start_result_thread.
    now apply newest_on_result_thread.
  - unfold on_deactivation. destruct (String.eqb _ _);
      [destruct (result_thread_isRunning s)|]; auto.
    now apply newest_on_result_thread.
  - unfold on_transcription_complete. destruct (String.eqb _ _).
    + apply newest_start_result_thread. exact H.
    + exact H.
  - now apply newest_stop_result_thread.
  - now apply newest_start_result_thread.
  - unfold newest in *. cbn. rewrite AppMore.length_update.
    destruct (result_thread s); [exact H|].
    destruct H as [H|H]; [left; now rewrite H|now right].
  - destruct c, ini; cbn; rewrite ?orb_false_r; try exact H.
    unfold newest. cbn. right. apply orb_true_r.
Qed.

Lemma newest_fold opts w events : forall b s,
  newest b s ->
  newest (b || existsb is_reinitialisation events) (fold_left (step opts w) events s).
Proof.
  induction events as [|e events IH]; intros b s H.
  - cbn. now rewrite orb_false_r.
  - cbn [fold_left existsb]. rewrite orb_assoc. apply IH. now apply newest_step.
Qed.

End AppLog.

(** X13.  Every result delivered by a result signal is typed, once,
    and nothing else is: after any sequence of events the texts typed
    are the results of its result signals, in order, whatever the mode
    and whether or not a thread is running.  The key listener is
    started again once per result signal, except in continuous mode,
    where it never is; besides, it is started once each time
    [on_settings_closed] initialises the components. *)
Theorem X13_each_result_typed_once (opts : App.options) (stop_waits : bool)
  (events : list App.event) :
  App.typed (App.run opts stop_waits events) = results_of events /\
  App.key_listener_starts (App.run opts stop_waits events)
  = (if String.eqb (App.recording_mode opts) "continuous" then 0
     else length (results_of events))
    + reinitialisations events.
Proof. exact (AppLog.fold_log opts stop_waits events App.initial). Qed.

(** X14.  [self.result_thread], when it is set, always refers to the
    thread created last: thread objects are never reused, each start
    makes a new one.  It is [None] only as long as no thread was
    created, or after the components were initialised again. *)
Theorem X14_result_thread_is_newest (opts : App.options) (stop_waits : bool)
  (events : list App.event) :
  match App.result_thread (App.run opts stop_waits events) with
  | None =>
      App.threads (App.run opts stop_waits events) = []
      \/ existsb is_reinitialisation events = true
  | Some i => S i = length (App.threads (App.run opts stop_waits events))
  end.
Proof.
  apply (AppLog.newest_fold opts stop_waits events false App.initial). now left.
Qed.

Module AppHistory.
Import App.

Lemma kept_refl t : kept t t.
Proof. unfold kept. auto. Qed.

Lemma kept_trans t1 t2 t3 : kept t1 t2 -> kept t2 t3 -> kept t1 t3.
Proof. unfold kept. intros [H1 [H2 H3]] [H4 [H5 H6]]. repeat split; auto; lia. Qed.

Lemma persists_refl l : persists l l.
Proof. intros i t Hi. exists t. split; [exact Hi|apply kept_refl]. Qed.

Lemma persists_trans l1 l2 l3 : persists l1 l2 -> persists l2 l3 -> persists l1 l3.
Proof.
  intros H12 H23 i t Hi. destruct (H12 i t Hi) as [t2 [H2 K2]].
  destruct (H23 i t2 H2) as [t3 [H3 K3]]. exists t3. split; [exact H3|].
  eapply kept_trans; eauto.
Qed.

Lemma persists_update f l i : (forall t, kept t (f t)) -> persists l (update i f l).
Proof.
  intros Hf j t Hj. rewrite AppFacts.nth_error_update, Hj.
  destruct (Nat.eqb i j); cbn; eexists; split; try reflexivity; auto using kept_refl.
Qed.

Lemma persists_app l new : persists l (l ++ new)%list.
Proof.
  intros i t Hi. exists t. split; [|apply kept_refl].
  rewrite nth_error_app1; [exact Hi|]. apply nth_error_Some. congruence.
Qed.

Lemma persists_on_result_thread f s :
  (forall t, kept t (f t)) -> persists (threads s) (threads (on_result_thread f s)).
Proof.
  intros Hf. unfold on_result_thread. destruct (result_thread s); cbn;
    [now apply persists_update|apply persists_refl].
Qed.

Lemma persists_stop_recording s : persists (threads s) (threads (stop_recording s)).
Proof. apply persists_on_result_thread. intros []. unfold kept. cbn. auto. Qed.

Lemma persists_stop_result_thread w s :
  persists (threads s) (threads (stop_result_thread w s)).
Proof.
  unfold stop_result_thread. destruct (result_thread_isRunning s); [|apply persists_refl].
  apply persists_on_result_thread. intros []. unfold kept. cbn.
  destruct w; auto.
Qed.

Lemma persists_start_result_thread s : persists (threads s) (threads (start_result_thread s)).
Proof.
  unfold start_result_thread. destruct (result_thread_isRunning s);
    [apply persists_refl|apply persists_app].
Qed.

Lemma persists_step opts w s e : persists (threads s) (threads (step opts w s e)).
Proof.
  destruct e as [| |result| | |i|c ini]; cbn [step].
  - unfold on_activation. destruct (result_thread_isRunning s);
      [destruct (String.eqb _ _); [|destruct (String.eqb _ _)]|];
      auto using persists_stop_recording, persists_stop_result_thread,
        persists_start_result_thread, persists_refl.
  - unfold on_deactivation. destruct (String.eqb _ _);
      [destruct (result_thread_isRunning s)|];
      auto using persists_stop_recording, persists_refl.
  - unfold on_transcription_complete. destruct (String.eqb _ _);
      [|apply persists_refl].
    match goal with |- context [start_result_thread ?s0] =>
      apply (persists_start_result_thread s0) end.
  - apply persists_stop_result_thread.
  - apply persists_start_result_thread.
  - cbn. apply persists_update. intros []. unfold kept. cbn. auto.
  - destruct c, ini; apply persists_refl.
Qed.

Lemma persists_fold opts w events : forall s,
  persists (threads s) (threads (fold_left (step opts w) events s)).
Proof.
  induction events as [|e events IH]; intros s; [apply persists_refl|].
  cbn. eapply persists_trans; [apply persists_step|apply IH].
Qed.

(** Requests by mode. *)
Lemma no_stop_recording_step opts w s e :
  String.eqb (recording_mode opts) "press_to_toggle" = false ->
  String.eqb (recording_mode opts) "hold_to_record" = false ->
  Forall (fun t => stop_recording_calls t = 0) (threads s) ->
  Forall (fun t => stop_recording_calls t = 0) (threads (step opts w s e)).
Proof.
  intros Hp Hh H. destruct e as [| |result| | |i|c ini]; cbn [step].
  - unfold on_activation. rewrite Hp. destruct (result_thread_isRunning s) eqn:Hrun.
    + destruct (String.eqb (recording_mode opts) "continuous"); [|exact H].
      unfold stop_result_thread, stop, on_result_thread.
      rewrite Hrun. destruct (result_thread s); [|exact H]. cbn.
      apply AppMore.Forall_update; [now intros []|exact H].
    + unfold start_result_thread. rewrite Hrun. cbn. apply Forall_app. split; [exact H|].
      now repeat constructor.
  - unfold on_deactivation. now rewrite Hh.
  - unfold on_transcription_complete.
    destruct (String.eqb (recording_mode opts) "continuous"); [|exact H].
    unfold start_result_thread. destruct (result_thread_isRunning _); [exact H|].
    cbn. apply Forall_app. split; [exact H|now repeat constructor].
  - unfold stop_result_thread, stop, on_result_thread.
    destruct (result_thread_isRunning s); [|exact H].
    destruct (result_thread s); [|exact H]. cbn.
    apply AppMore.Forall_update; [now intros []|exact H].
  - unfold start_result_thread. destruct (result_thread_isRunning s); [exact H|].
    cbn. apply Forall_app. split; [exact H|now repeat constructor].
  - cbn. apply AppMore.Forall_update; [now intros []|exact H].
  - destruct c, ini; exact H.
Qed.

Lemma no_stop_step opts w s e :
  String.eqb (recording_mode opts) "continuous" = false ->
  is_CloseSignal e = false ->
  Forall (fun t => stop_calls t = 0) (threads s) ->
  Forall (fun t => stop_calls t = 0) (threads (step opts w s e)).
Proof.
  intros Hc He H. destruct e as [| |result| | |i|c ini]; cbn [step]; try discriminate He.
  - unfold on_activation. rewrite Hc. destruct (result_thread_isRunning s) eqn:Hrun.
    + destruct (String.eqb (recording_mode opts) "press_to_toggle"); [|exact H].
      unfold stop_recording, on_result_thread.
      destruct (result_thread s); [|exact H]. cbn.
      apply AppMore.Forall_update; [now intros []|exact H].
    + unfold start_result_thread. rewrite Hrun. cbn. apply Forall_app. split; [exact H|].
      now repeat constructor.
  - unfold on_deactivation.
    destruct (String.eqb (recording_mode opts) "hold_to_record"); [|exact H].
    destruct (result_thread_isRunning s); [|exact H].
    unfold stop_recording, on_result_thread. destruct (result_thread s); [|exact H]. cbn.
    apply AppMore.Forall_update; [now intros []|exact H].
  - unfold on_transcription_complete. now rewrite Hc.
  - unfold start_result_thread. destruct (result_thread_isRunning s); [exact H|].
    cbn. apply Forall_app. split; [exact H|now repeat constructor].
  - cbn. apply AppMore.Forall_update; [now intros []|exact H].
  - destruct c, ini; exact H.
Qed.

End AppHistory.

(** X15.  Thread objects are only ever added: a thread that exists
    after some events still exists, at the same place, after any
    further events; once it has stopped running it never runs again
    (the handlers start new threads only), and the stop requests made
    of it are never taken back. *)
Theorem X15_threads_persist (opts : App.options) (stop_waits : bool)
  (events more : list App.event) (i : nat) (t : App.result_thread_obj) :
  nth_error (App.threads (App.run opts stop_waits events)) i = Some t ->
  exists t',
    nth_error (App.threads (App.run opts stop_waits (events ++ more)%list)) i = Some t' /\
    (App.running t = false -> App.running t' = false) /\
    App.stop_recording_calls t <= App.stop_recording_calls t' /\
    App.stop_calls t <= App.stop_calls t'.
Proof.
  intros Hi. unfold App.run. rewrite fold_left_app.
  exact (AppHistory.persists_fold opts stop_waits more _ i t Hi).
Qed.

Lemma X15_witness :
  exists t',
    nth_error
      (App.threads
         (App.run {| App.recording_mode := "press_to_toggle";
                     App.noise_on_completion := false |} false
            ([App.Activation; App.Activation; App.ThreadFinished 0]
             ++ [App.ResultSignal "hello"; App.Activation])%list)) 0 = Some t' /\
    (false = false -> App.running t' = false) /\
    1 <= App.stop_recording_calls t' /\
    0 <= App.stop_calls t'.
Proof.
  exact (X15_threads_persist
           {| App.recording_mode := "press_to_toggle"; App.noise_on_completion := false |}
           false
           [App.Activation; App.Activation; App.ThreadFinished 0]
           [App.ResultSignal "hello"; App.Activation] 0
           {| App.running := false; App.stop_recording_calls := 1; App.stop_calls := 0 |}
           eq_refl).
Defined.

(** X16.  Which mode can ask a thread for what.  [stop_recording] is
    requested only in the modes press_to_toggle and hold_to_record: in
    any other mode (continuous, or a mode name the handlers do not
    know) no thread ever gets that request.  [stop] is requested only
    in continuous mode or when the status window is closed: in any
    other mode, and as long as no close signal arrives, no thread ever
    gets it.  So with an unknown mode name the hotkey cannot end a
    recording. *)
Theorem X16_requests_by_mode (opts : App.options) (stop_waits : bool)
  (events : list App.event) :
  (String.eqb (App.recording_mode opts) "press_to_toggle" = false ->
   String.eqb (App.recording_mode opts) "hold_to_record" = false ->
   Forall (fun t => App.stop_recording_calls t = 0)
     (App.threads (App.run opts stop_waits events))) /\
  (String.eqb (App.recording_mode opts) "continuous" = false ->
   forallb (fun e => negb (is_CloseSignal e)) events = true ->
   Forall (fun t => App.stop_calls t = 0)
     (App.threads (App.run opts stop_waits events))).
Proof.
  split.
  - intros Hp Hh. unfold App.run.
    assert (H : forall s, Forall (fun t => App.stop_recording_calls t = 0) (App.threads s) ->
      Forall (fun t => App.stop_recording_calls t = 0)
        (App.threads (fold_left (App.step opts stop_waits) events s))).
    { induction events as [|e evs IH]; intros s Hs; [exact Hs|].
      cbn. apply IH. now apply AppHistory.no_stop_recording_step. }
    apply H. constructor.
  - intros Hc. unfold App.run.
    assert (H : forall s, forallb (fun e => negb (is_CloseSignal e)) events = true ->
      Forall (fun t => App.stop_calls t = 0) (App.threads s) ->
      Forall (fun t => App.stop_calls t = 0)
        (App.threads (fold_left (App.step opts stop_waits) events s))).
    { induction events as [|e evs IH]; intros s Hev Hs; [exact Hs|].
      cbn in Hev |- *. apply andb_true_iff in Hev as [He Hevs].
      apply IH; [exact Hevs|]. apply AppHistory.no_stop_step; auto.
      now apply negb_true_iff. }
    intros Hev. apply H; [exact Hev|constructor].
Qed.

Lemma X16_witness :
  Forall (fun t => App.stop_recording_calls t = 0)
    (App.threads
       (App.run {| App.recording_mode := "push_to_talk"; App.noise_on_completion := false |}
          false [App.Activation; App.Activation; App.Deactivation; App.Activation])) /\
  Forall (fun t => App.stop_calls t = 0)
    (App.threads
       (App.run {| App.recording_mode := "push_to_talk"; App.noise_on_completion := false |}
          false [App.Activation; App.Activation; App.Deactivation; App.Activation])).
Proof.
  destruct (X16_requests_by_mode
              {| App.recording_mode := "push_to_talk"; App.noise_on_completion := false |}
              false [App.Activation; App.Activation; App.Deactivation; App.Activation])
    as [H1 H2].
  split; [apply H1; reflexivity|apply H2; reflexivity].
Defined.

(** X19.  As long as the components are not initialised again, at most
    one result thread is running after any sequence of events
    (activations, deactivations, result and close signals, start
    requests, threads finishing, the settings window closed with a
    configuration file in place), and after each prefix of it; and in
    a state whose current result thread is running,
    [start_result_thread] changes nothing: no thread object is
    created. *)
Theorem X19_one_thread_without_reinitialisation (opts : App.options) (stop_waits : bool)
  (events : list App.event) :
  no_reinitialisation events = true ->
  App.running_count (App.run opts stop_waits events) <= 1 /\
  (forall n, App.running_count (App.run opts stop_waits (firstn n events)) <= 1) /\
  (App.result_thread_isRunning (App.run opts stop_waits events) = true ->
   App.start_result_thread (App.run opts stop_waits events)
   = App.run opts stop_waits events /\
   App.step opts stop_waits (App.run opts stop_waits events) App.StartRequest
   = App.run opts stop_waits events).
Proof.
  intros Hev.
  assert (Hcount : forall evs, no_reinitialisation evs = true ->
            App.running_count (App.run opts stop_waits evs) <= 1).
  { intros evs Hevs. unfold App.running_count. eapply AppFacts.only_current_runs_count.
    now apply AppFacts.inv_run. }
  split; [now apply Hcount|].
  split; [intros n; apply Hcount; now apply AppFacts.no_reinitialisation_firstn|].
  intros Hrun. cbn [App.step]. unfold App.start_result_thread.
  rewrite Hrun. now split.
Qed.

Lemma X19_witness :
  App.running_count
    (App.run {| App.recording_mode := "continuous"; App.noise_on_completion := false |}
       false [App.Activation; App.SettingsClosed true true; App.Activation;
              App.StartRequest]) <= 1 /\
  App.start_result_thread
    (App.run {| App.recording_mode := "continuous"; App.noise_on_completion := false |}
       false [App.Activation; App.SettingsClosed true true; App.Activation;
              App.StartRequest])
  = App.run {| App.recording_mode := "continuous"; App.noise_on_completion := false |}
      false [App.Activation; App.SettingsClosed true true; App.Activation;
             App.StartRequest].
Proof.
  destruct (X19_one_thread_without_reinitialisation
              {| App.recording_mode := "continuous"; App.noise_on_completion := false |}
              false [App.Activation; App.SettingsClosed true true; App.Activation;
                     App.StartRequest] eq_refl) as [Hcount [_ Hnoop]].
  split; [exact Hcount|]. apply Hnoop. reflexivity.
Defined.

(* ================================================================= *)
(** ** Samples: range and precision *)

(** X17.  The scaled samples are normalized amplitudes: every int16
    sample becomes a finite binary32 number in the interval from -1
    (included) to 1 (excluded), and no precision is lost, since two
    different samples never give the same number. *)
Theorem X17_scale_sample_range (s1 s2 : Z) :
  is_int16 s1 = true -> is_int16 s2 = true ->
  (exists q, F32.to_Q (scale_sample s1) = Some q /\
             Qle (Qmake (-1) 1) q /\ Qlt q (Qmake 1 1)) /\
  (scale_sample s1 = scale_sample s2 -> s1 = s2).
Proof.
  intros H1 H2. pose proof (scale_sample_exact s1 H1) as E1.
  pose proof (scale_sample_exact s2 H2) as E2. unfold represents in E1, E2.
  unfold is_int16 in H1, H2.
  apply andb_true_iff in H1 as [L1 U1]. apply andb_true_iff in H2 as [L2 U2].
  apply Z.leb_le in L1, U1, L2, U2.
  destruct (F32.to_Q (scale_sample s1)) as [q1|] eqn:Q1; [|discriminate].
  destruct (F32.to_Q (scale_sample s2)) as [q2|] eqn:Q2; [|discriminate].
  apply Qeq_bool_iff in E1, E2. unfold Qeq in E1, E2. cbn [Qnum Qden] in E1, E2.
  split.
  - exists q1. split; [reflexivity|]. unfold Qle, Qlt. cbn [Qnum Qden].
    pose proof (Pos2Z.is_pos (Qden q1)). split; nia.
  - intros Heq. rewrite Heq, Q2 in Q1. injection Q1 as <-.
    pose proof (Pos2Z.is_pos (Qden q2)). nia.
Qed.

Lemma X17_witness :
  (exists q, F32.to_Q (scale_sample 32767) = Some q /\
             Qle (Qmake (-1) 1) q /\ Qlt q (Qmake 1 1)) /\
  (scale_sample 32767 = scale_sample 32766 -> 32767%Z = 32766%Z).
Proof. exact (X17_scale_sample_range 32767 32766 eq_refl eq_refl). Defined.

(* ================================================================= *)
(** ** The cached model *)


